(** * Block monitoring utilities ([src/utils/monitoring.ts])

    A shallow embedding of the identity resolver, the block aggregator, the
    range walker, the live follower and the snapshot formatter, followed by
    the properties established about them.

    Conventions of the embedding.
    - A JavaScript [number] that holds a fraction is an IEEE-754 binary64
      value, modelled by [spec_float] with precision 53 and maximal exponent
      1024.  A [number] that is an integer by construction (block numbers,
      millisecond timestamps obtained through [toNumber()], list lengths) is
      a [Z]; such values stay inside the safe-integer range, where
      JavaScript arithmetic on them is exact.
    - A [BigInt] obtained from an unsigned on-chain quantity is an [N].
    - Strings are [string]; all text handled here is ASCII, for which the
      UTF-16 length of JavaScript and the byte length coincide.
    - An object used as a dictionary is a [gmap string _]; its keys are
      account and author identifiers (hexadecimal text), none of which is
      the name of a property inherited from [Object.prototype].
    - [async] code is state passing over a [World] (clock, the two caches,
      the log of issued requests, the console); a rejected promise or a
      thrown exception is [Err].
    - The members of a [Promise.all] are accounted to the world one after
      the other, in the order of the array, and so are the handlers of the
      live follower, each at the turn of the event loop where its awaited
      answers are in.  Within one call of [getBlockDetails] the log of
      requests is then in the order of issue, every member but the last
      of its [Promise.all]s being a single request or an array of single
      requests.  The tasks of a batch of [exploreBlockRange] and the
      handlers of overlapping heads are logged one after the other; no
      statement below orders the requests of two of them.  The clock is
      that of a node which answers the requests of a connection in turn:
      it advances by the latency of each. *)

From Stdlib Require Import ZArith NArith Lia Bool List Sorted.
From Stdlib Require Import Ascii String DecimalString.
From Stdlib Require Import SpecFloat.
From stdpp Require Import base option list gmap strings.

Local Open Scope string_scope.
Local Open Scope Z_scope.

(** ** Results of fallible computations *)

Inductive Res (A : Type) : Type :=
| Ok (a : A)
| Err (msg : string).
Arguments Ok {A} a.
Arguments Err {A} msg.

Definition res_bind {A B} (r : Res A) (k : A -> Res B) : Res B :=
  match r with
  | Ok a => k a
  | Err e => Err e
  end.

Definition res_of_option {A} (o : option A) (msg : string) : Res A :=
  match o with
  | Some a => Ok a
  | None => Err msg
  end.

Fixpoint res_mapM {A B} (f : A -> Res B) (l : list A) : Res (list B) :=
  match l with
  | [] => Ok []
  | x :: l' =>
      res_bind (f x) (fun y => res_bind (res_mapM f l') (fun ys => Ok (y :: ys)))
  end.

Definition isOk {A} (r : Res A) : bool :=
  match r with Ok _ => true | Err _ => false end.

(** ** JavaScript numbers, strings and the few host functions used *)

Module Js.

Definition number := spec_float.

Definition prec : Z := 53.
Definition emax : Z := 1024.

(** [Number(z)] for an integer (or [BigInt]) [z]: round to nearest, ties
    to even. *)
Definition ofZ (z : Z) : number := binary_normalize prec emax z 0 false.
Definition ofN (n : N) : number := ofZ (Z.of_N n).

Definition div (x y : number) : number := SFdiv prec emax x y.
Definition gtb (x y : number) : bool := SFltb y x.
Definition geb (x y : number) : bool := SFleb y x.

(** Decimal literals [0.1], [0.01], [0.001]: the binary64 value nearest to
    the decimal, which the correctly rounded quotient of two exact
    integers yields. *)
Definition lit_0_1 : number := div (ofZ 1) (ofZ 10).
Definition lit_0_01 : number := div (ofZ 1) (ofZ 100).
Definition lit_0_001 : number := div (ofZ 1) (ofZ 1000).

(** [Math.floor]. *)
Definition floor (x : number) : number :=
  match x with
  | S754_finite s m e =>
      if 0 <=? e then x
      else
        let q := Z.shiftr (Z.pos m) (- e) in
        if s then
          let exact := Z.eqb (Z.shiftl q (- e)) (Z.pos m) in
          ofZ (- (if exact then q else q + 1))
        else ofZ q
  | _ => x
  end.

(** *** Decimal text of integers *)

Definition digitsOfN (n : N) : string := NilZero.string_of_uint (N.to_uint n).

Definition stringOfZ (z : Z) : string :=
  if z <? 0 then "-" ++ digitsOfN (Z.to_N (- z)) else digitsOfN (Z.to_N z).

(** *** String methods *)

Fixpoint repeatChar (c : ascii) (n : nat) : string :=
  match n with
  | O => EmptyString
  | S n' => String c (repeatChar c n')
  end.

Definition space : ascii := " "%char.

Definition padStart (s : string) (n : nat) : string :=
  repeatChar space (n - String.length s) ++ s.

Definition padEnd (s : string) (n : nat) : string :=
  s ++ repeatChar space (n - String.length s).

(** [s.substring(start, end)] and [s.substring(start)]: indices are
    clamped to [0 .. length] and swapped when out of order. *)
Definition clampIndex (s : string) (i : Z) : nat :=
  Z.to_nat (Z.min (Z.max i 0) (Z.of_nat (String.length s))).

Definition substring2 (s : string) (i j : Z) : string :=
  let a := clampIndex s i in
  let b := clampIndex s j in
  String.substring (Nat.min a b) (Nat.max a b - Nat.min a b) s.

Definition substringFrom (s : string) (i : Z) : string :=
  substring2 s i (Z.of_nat (String.length s)).

(** [s.includes(sub)]. *)
Fixpoint includes (sub s : string) : bool :=
  String.prefix sub s ||
  match s with
  | EmptyString => false
  | String _ s' => includes sub s'
  end.

(** *** [Number.prototype.toFixed] and [toString] *)

(** Largest [k] with [10^k <= n], for [n > 0], searched upwards. *)
Fixpoint log10_up (fuel : nat) (k : Z) (n : Z) : Z :=
  match fuel with
  | O => k
  | S fuel' => if 10 ^ (k + 1) <=? n then log10_up fuel' (k + 1) n else k
  end.

Definition log10 (n : Z) : Z := log10_up (Z.to_nat (Z.log2 n)) 0 n.

(** Shortest decimal [s * 10^(n-k)], [k] digits, that reads back as the
    binary64 value of the integer [x >= 10^21] (Number::toString); of two
    such decimals the nearer to [x], the even one on a tie. *)
Fixpoint shortest (fuel : nat) (k : Z) (n : Z) (x : Z) : Z * Z :=
  let p := 10 ^ (n - k) in
  let lo := x / p in
  let hi := lo + 1 in
  let okLo := SFeqb (ofZ (lo * p)) (ofZ x) in
  let okHi := SFeqb (ofZ (hi * p)) (ofZ x) in
  let nearLo :=
    (x - lo * p <? hi * p - x) || ((x - lo * p =? hi * p - x) && Z.even lo) in
  match fuel with
  | O => (lo, k)
  | S fuel' =>
      if okLo && (negb okHi || nearLo) then (lo, k)
      else if okHi then (hi, k)
      else shortest fuel' (k + 1) n x
  end.

Fixpoint stripZeros (fuel : nat) (s : Z) : Z :=
  match fuel with
  | O => s
  | S fuel' => if (0 <? s) && (s mod 10 =? 0) then stripZeros fuel' (s / 10) else s
  end.

Definition exponentText (x : Z) : string :=
  let n := log10 x + 1 in
  let '(s, k) := shortest 21 1 n x in
  (* a candidate rounded up to a power of ten has one more digit *)
  let e := if 10 ^ k <=? s then n else n - 1 in
  let ds := digitsOfN (Z.to_N (stripZeros 25 s)) in
  match ds with
  | String d EmptyString => String d EmptyString ++ "e+" ++ stringOfZ e
  | String d rest => String d ("." ++ rest) ++ "e+" ++ stringOfZ e
  | EmptyString => "0"
  end.

(** Exact integer value of a finite number with a non-negative binary
    exponent, and of the integral numbers below [2^53]. *)
Definition integerValue (m : positive) (e : Z) : option Z :=
  if 0 <=? e then Some (Z.shiftl (Z.pos m) e)
  else
    let q := Z.shiftr (Z.pos m) (- e) in
    if Z.shiftl q (- e) =? Z.pos m then Some q else None.

(** The digits of an integer [x] below [10^21] as [Number::toString] prints
    them: the integer itself up to [2^53], where every integer is a number,
    and from there on the shortest decimal that reads back as the number,
    filled up with zeros. *)
Definition positionalText (x : Z) : string :=
  if x <? 2 ^ 53 then digitsOfN (Z.to_N x)
  else
    let n := log10 x + 1 in
    let '(s, k) := shortest 21 1 n x in
    digitsOfN (Z.to_N s) ++ repeatChar "0"%char (Z.to_nat (n - k)).

(** [x.toString()] for an integral [x]; [None] for a fraction, which no
    call of this file prints that way. *)
Definition toStringIntegral (x : number) : option string :=
  match x with
  | S754_zero _ => Some "0"
  | S754_infinity false => Some "Infinity"
  | S754_infinity true => Some "-Infinity"
  | S754_nan => Some "NaN"
  | S754_finite s m e =>
      match integerValue m e with
      | Some v =>
          let body := if v <? 10 ^ 21 then positionalText v else exponentText v in
          Some (if s then "-" ++ body else body)
      | None => None
      end
  end.

(** [x.toFixed(f)]: the integer [n] with [n / 10^f] nearest to [|x|], the
    larger one on a tie, printed with [f] decimals. *)
Definition nearestScaled (m : positive) (e : Z) (f : nat) : Z :=
  let scaled := Z.pos m * 10 ^ Z.of_nat f in
  if 0 <=? e then Z.shiftl scaled e
  else Z.shiftr (2 * scaled + Z.shiftl 1 (- e)) (- e + 1).

Definition fixedText (n : Z) (f : nat) : string :=
  let ds := digitsOfN (Z.to_N n) in
  let ds := repeatChar "0"%char (S f - String.length ds) ++ ds in
  let k := (String.length ds - f)%nat in
  if (f =? 0)%nat then ds
  else String.substring 0 k ds ++ "." ++ String.substring k f ds.

Definition geTenPow21 (m : positive) (e : Z) : bool :=
  if 0 <=? e then 10 ^ 21 <=? Z.shiftl (Z.pos m) e
  else 10 ^ 21 <=? Z.shiftr (Z.pos m) (- e).

Definition toFixed (x : number) (f : nat) : string :=
  match x with
  | S754_nan => "NaN"
  | S754_infinity false => "Infinity"
  | S754_infinity true => "-Infinity"
  | S754_zero _ => fixedText 0 f
  | S754_finite s m e =>
      let body :=
        if geTenPow21 m e then
          default "" (toStringIntegral (S754_finite false m e))
        else fixedText (nearestScaled m e f) f in
      if s then "-" ++ body else body
  end.

End Js.

(** ** Data model *)

Definition Hash := string.

(** The transaction data of one ethereum payload variant, as the properties
    read by the formatter; an absent property is [None]. *)
Record EthTxData := {
  tx_gasPrice : option N;
  tx_value : option N }.

(** What reading [payload.asLegacy] and its like gives: nothing on an object
    without such a property, the transaction data of the variant, or an
    exception, which is what the accessor of an enum of [@polkadot/types]
    raises when the enum holds another variant. *)
Inductive Accessor :=
| Absent
| Holds (data : EthTxData)
| Throws.

(** An extrinsic argument as the object the code reads: its text, the
    variant accessors [asLegacy], [asEip2930], [asEip1559] read through
    optional chaining, and the direct properties [gasPrice] and [value]. *)
Record Arg := {
  arg_text : string;
  asLegacy : Accessor;
  asEip2930 : Accessor;
  asEip1559 : Accessor;
  arg_gasPrice : option N;
  arg_value : option N }.

Record Extrinsic := {
  ext_section : string;
  ext_method : string;
  ext_args : list Arg;
  ext_hex : string;
  ext_hash : string }.

Inductive DigestItem :=
| PreRuntime (items : list string)
| OtherDigest.

Record Header := {
  number : Z;
  hash : Hash;
  parentHash : Hash;
  digestLogs : list DigestItem }.

Record Block := {
  header : Header;
  extrinsics : list Extrinsic }.

Record DispatchInfo := {
  weight : N;
  paysFee_isYes : bool;
  class_isMandatory : bool }.

Record RuntimeDispatchInfo := {
  partialFee : N }.

Inductive EventData :=
| DataAmount (n : N)
| DataDispatch (d : DispatchInfo)
| DataOpaque.

Record Event := {
  ev_section : string;
  ev_method : string;
  ev_data : list EventData }.

(** [phase] is [Some i] for [ApplyExtrinsic(i)], [None] for the block-level
    phases. *)
Record EventRecord := {
  phase : option nat;
  event : Event }.

Record TxWithEventAndFee := {
  dispatchInfo : option DispatchInfo;
  events : list Event;
  extrinsic : Extrinsic;
  fee : option RuntimeDispatchInfo }.

(** [BlockDetails], and [RealtimeBlockDetails] when [realtime] is [Some]:
    the test ["pendingTxs" in blockDetails] is [realtime <> None]. *)
Record Realtime := {
  elapsedMilliSecs : Z;
  pendingTxs : list Extrinsic }.

Record BlockDetails := {
  block : Block;
  authorName : string;
  blockTime : Z;
  records : list EventRecord;
  txWithEvents : list TxWithEventAndFee;
  weightPercentage : Js.number;
  realtime : option Realtime }.

(** The [display] field of an identity, a [Data]: raw bytes or another
    variant (none, a hash).  Either way the code reads the bytes of the
    inner value, whose text is carried here. *)
Inductive IdentityData :=
| Raw (text : string)
| NotRaw (valueText : string).

Record PalletIdentityRegistration := {
  display : IdentityData }.

Record IdentityEntry := {
  identity : option PalletIdentityRegistration;
  id_lastUpdate : Z }.

Record AuthorEntry := {
  account : option string;
  am_lastUpdate : Z }.

(** ** The chain collaborator and the host *)

Inductive Request :=
| ReqAt (h : Hash)
| ReqGetBlockHash (n : Z)
| ReqGetBlock (h : Hash)
| ReqHeadBlock
| ReqEvents (h : Hash)
| ReqTimestamp (h : Hash)
| ReqQueryInfo (hex : string) (parent : Hash)
| ReqIdentityOf (account : string)
| ReqQueryStorageAt (keys : list string) (at_hash : option Hash)
| ReqMappingWithDeposit (author : string)
| ReqPendingExtrinsics
| ReqSubscribeHeads (finalized : bool).

(** What the node answers to each request, and how long the answer takes.
    The pending pool and the head depend on the instant of the request. *)
Record Api := {
  maxBlock : N;
  api_at : Hash -> Res unit;
  getBlockHash : Z -> Res Hash;
  getBlock : Hash -> Res Block;
  headBlock : Z -> Res Block;
  systemEvents : Hash -> Res (list EventRecord);
  timestampNow : Hash -> Res N;
  queryInfo : string -> Hash -> Res RuntimeDispatchInfo;
  identityOf : string -> Res (option PalletIdentityRegistration);
  queryStorageAt :
    list string -> option Hash -> Res (list (option PalletIdentityRegistration));
  mappingWithDeposit : string -> Res (option string);
  pendingExtrinsics : Z -> Res (list Extrinsic);
  subscribeHeads : bool -> Res unit;
  latency : Request -> Z }.

(** Library functions and settings of the process: the hashes of
    [@polkadot/util-crypto], whether [chalk] emits colour codes, and the
    offset of local time from UTC in milliseconds at a given instant. *)
Record Host := {
  xxhashAsHex : string -> Z -> string;
  u8aHex : string -> string;
  ethereumEncode : string -> string;
  colorEnabled : bool;
  localOffset : Z -> Z }.

Record World := {
  now : Z;
  identityCache : gmap string IdentityEntry;
  authorMappingCache : gmap string AuthorEntry;
  requests : list Request;
  console : list string }.

Definition setIdentityCache (c : gmap string IdentityEntry) (w : World) : World :=
  {| now := now w; identityCache := c; authorMappingCache := authorMappingCache w;
     requests := requests w; console := console w |}.

Definition setAuthorMappingCache (c : gmap string AuthorEntry) (w : World) : World :=
  {| now := now w; identityCache := identityCache w; authorMappingCache := c;
     requests := requests w; console := console w |}.

Definition elapse (d : Z) (w : World) : World :=
  {| now := now w + d; identityCache := identityCache w;
     authorMappingCache := authorMappingCache w;
     requests := requests w; console := console w |}.

Definition logRequest (r : Request) (w : World) : World :=
  {| now := now w; identityCache := identityCache w;
     authorMappingCache := authorMappingCache w;
     requests := requests w ++ [r]; console := console w |}.

Definition consoleLog (line : string) (w : World) : World :=
  {| now := now w; identityCache := identityCache w;
     authorMappingCache := authorMappingCache w;
     requests := requests w; console := console w ++ [line] |}.

(** ** Asynchronous computations *)

Definition M (A : Type) : Type := World -> Res A * World.

Definition ret {A} (a : A) : M A := fun w => (Ok a, w).

Definition bind {A B} (m : M A) (k : A -> M B) : M B :=
  fun w =>
    match m w with
    | (Ok a, w') => k a w'
    | (Err e, w') => (Err e, w')
    end.

Definition lift {A} (r : Res A) : M A := fun w => (r, w).

Notation "x <- m ;; k" := (bind m (fun x => k))
  (at level 20, m at level 99, k at level 200, only parsing).
Notation "' p <- m ;; k" := (bind m (fun x => let 'p := x in k))
  (at level 20, p pattern, m at level 99, k at level 200, only parsing).

(** [Date.now()]. *)
Definition dateNow : M Z := fun w => (Ok (now w), w).

(** The answer of a request issued earlier comes in: the clock has advanced
    by the latency of the request. *)
Definition answerOf {A} (api : Api) (r : Request) (answer : Res A) : M A :=
  fun w => (answer, elapse (latency api r) w).

(** An awaited request: it is logged when issued, the clock has advanced by
    its latency when the answer is in. *)
Definition rpc {A} (api : Api) (r : Request) (answer : Res A) : M A :=
  fun w => (answer, elapse (latency api r) (logRequest r w)).

Definition both {A B} (ra : Res A) (rb : Res B) : Res (A * B) :=
  match ra, rb with
  | Ok a, Ok b => Ok (a, b)
  | Err e, _ => Err e
  | _, Err e => Err e
  end.

(** [Promise.all]: every member is started and runs to its end whatever the
    others do; the result is rejected when a member is.  The members are
    accounted to the world one after the other, in the order of the array:
    the log lists the requests of the first member, then those of the
    second, which is the order of issue when the members are single
    requests, and the clock is that of a node which answers the requests of
    a connection in turn, so that it advances by the latencies of them
    all. *)
Definition par {A B} (a : M A) (b : M B) : M (A * B) :=
  fun w =>
    let '(ra, w1) := a w in
    let '(rb, w2) := b w1 in
    (both ra rb, w2).

Fixpoint parAll {A} (l : list (M A)) : M (list A) :=
  match l with
  | [] => ret []
  | a :: l' =>
      fun w =>
        let '(ra, w1) := a w in
        let '(rl, w2) := parAll l' w1 in
        (res_bind (both ra rl) (fun p => Ok (fst p :: snd p)), w2)
  end.

(** ** Identity resolver *)

Definition hour : Z := 3600 * 1000.

Definition truthy (s : option string) : bool :=
  match s with
  | Some (String _ _) => true
  | _ => false
  end.

Definition getIdentityKey (host : Host) (account : string) : string :=
  "0x" ++ xxhashAsHex host "Identity" 128 ++ xxhashAsHex host "IdentityOf" 128
       ++ xxhashAsHex host account 64 ++ u8aHex host account.

(** [!identityCache[account] || identityCache[account].lastUpdate <
    Date.now() - 3600 * 1000]. *)
Definition identityStale (w : World) (account : string) : bool :=
  match identityCache w !! account with
  | None => true
  | Some e => id_lastUpdate e <? now w - hour
  end.

Definition authorStale (w : World) (author : string) : bool :=
  match authorMappingCache w !! author with
  | None => true
  | Some e => am_lastUpdate e <? now w - hour
  end.

(** [u8aToString(identity.info.display.asRaw.toU8a(true))]: [asRaw] hands out
    the inner value whatever the variant, so that a text always comes out. *)
Definition displayText (r : PalletIdentityRegistration) : string :=
  match display r with
  | Raw text => text
  | NotRaw valueText => valueText
  end.

Definition storeIdentity (account : string) (i : option PalletIdentityRegistration)
  : M unit :=
  fun w =>
    (Ok tt,
     setIdentityCache (<[account := {| identity := i; id_lastUpdate := now w |}]>
                         (identityCache w)) w).

Definition storeAuthor (author : string) (a : option string) : M unit :=
  fun w =>
    (Ok tt,
     setAuthorMappingCache (<[author := {| account := a; am_lastUpdate := now w |}]>
                              (authorMappingCache w)) w).

Definition getAccountIdentity (api : Api) (account : option string) : M string :=
  match account with
  | Some (String c rest as acc) =>
      stale <- (fun w => (Ok (identityStale w acc), w)) ;;
      _ <- (if stale then
              identityData <- rpc api (ReqIdentityOf acc) (identityOf api acc) ;;
              storeIdentity acc identityData
            else ret tt) ;;
      fun w =>
        match identityCache w !! acc with
        | None => (Err "TypeError: cannot destructure undefined", w)
        | Some e =>
            match identity e with
            | Some r => (Ok (displayText r), w)
            | None => (Ok acc, w)
            end
        end
  | _ => ret ""
  end.

Definition getAuthorIdentity (api : Api) (host : Host) (author : string) : M string :=
  stale <- (fun w => (Ok (authorStale w author), w)) ;;
  _ <- (if stale then
          mappingData <- rpc api (ReqMappingWithDeposit author)
                             (mappingWithDeposit api author) ;;
          storeAuthor author (option_map (ethereumEncode host) mappingData)
        else ret tt) ;;
  acc <- (fun w =>
            match authorMappingCache w !! author with
            | None => (Err "TypeError: cannot destructure undefined", w)
            | Some e => (Ok (account e), w)
            end) ;;
  getAccountIdentity api acc.

(** The accounts to refresh: the non-empty ones that are missing or stale. *)
Definition missingAccounts (w : World) (accounts : list string) : list string :=
  List.filter (fun a => truthy (Some a) && identityStale w a) accounts.

(** [identities.forEach((identityData, i) => identityCache[missingAccounts[i]]
    = ...)]: an index past the end of [missingAccounts] reads [undefined],
    which as a property name is the text "undefined". *)
Fixpoint storeIdentities (missing : list string) (i : nat)
    (identities : list (option PalletIdentityRegistration)) : M unit :=
  match identities with
  | [] => ret tt
  | identityData :: rest =>
      _ <- storeIdentity (nth i missing "undefined") identityData ;;
      storeIdentities missing (S i) rest
  end.

Definition accountDisplay (w : World) (a : string) : Res string :=
  if truthy (Some a) then
    match identityCache w !! a with
    | None => Err "TypeError: cannot read properties of undefined"
    | Some e =>
        match identity e with
        | Some r => Ok (displayText r)
        | None => Ok a
        end
    end
  else Ok a.

Definition getAccountIdentities (api : Api) (host : Host)
    (accounts : option (list string)) (at_hash : option Hash) : M (list string) :=
  match accounts with
  | None | Some [] => ret []
  | Some accs =>
      missing <- (fun w => (Ok (missingAccounts w accs), w)) ;;
      _ <- (if (0 <? length missing)%nat then
              let keys := map (getIdentityKey host) missing in
              identities <- rpc api (ReqQueryStorageAt keys at_hash)
                                (queryStorageAt api keys at_hash) ;;
              storeIdentities missing 0 identities
            else ret tt) ;;
      fun w => (res_mapM (accountDisplay w) accs, w)
  end.

(** ** Block aggregator *)

Definition isSetAuthor (tx : Extrinsic) : bool :=
  String.eqb (ext_section tx) "authorInherent" && String.eqb (ext_method tx) "setAuthor".

Definition isNimbusDigest (l : DigestItem) : bool :=
  match l with
  | PreRuntime (engine :: _) => String.eqb engine "nmbs"
  | _ => false
  end.

(** [x || y] on possibly absent strings. *)
Definition orElse (x y : option string) : option string :=
  if truthy x then x else y.

Definition authorIdOf (b : Block) : option string :=
  orElse
    (tx ← List.find isSetAuthor (extrinsics b);
     a ← head (ext_args tx);
     Some (arg_text a))
    (l ← List.find isNimbusDigest (digestLogs (header b));
     match l with
     | PreRuntime items => items !! 1%nat
     | OtherDigest => None
     end).

Definition zeroAuthor : string :=
  "0x0000000000000000000000000000000000000000000000000000000000000000".

(** Modelled from the spec: [mapExtrinsics] of [./types], a module that is
    not among the sources.  Each extrinsic is paired, by position, with the
    events whose phase carries its index and with its fee quote; its
    dispatch outcome is the one reported in the data of its own [system]
    events (the last one, should there be several). *)
Definition dispatchOfEvent (e : Event) : option DispatchInfo :=
  if String.eqb (ev_section e) "system" then
    last (omap (fun x => match x with DataDispatch d => Some d | _ => None end)
               (ev_data e))
  else None.

Definition eventsOf (index : nat) (recs : list EventRecord) : list Event :=
  map event (List.filter (fun r => bool_decide (phase r = Some index)) recs).

Fixpoint mapExtrinsicsFrom (index : nat) (exts : list Extrinsic)
    (recs : list EventRecord) (fees : list RuntimeDispatchInfo)
  : list TxWithEventAndFee :=
  match exts with
  | [] => []
  | ext :: exts' =>
      let evs := eventsOf index recs in
      {| dispatchInfo := last (omap dispatchOfEvent evs);
         events := evs;
         extrinsic := ext;
         fee := fees !! index |}
      :: mapExtrinsicsFrom (S index) exts' recs fees
  end.

Definition mapExtrinsics := mapExtrinsicsFrom 0.

(** [tx.dispatchInfo && tx.dispatchInfo.weight.toBigInt()]; adding
    [undefined] to a [BigInt] throws. *)
Definition dispatchedWeight (tx : TxWithEventAndFee) : Res N :=
  match dispatchInfo tx with
  | Some d => Ok (weight d)
  | None => Err "TypeError: Cannot mix BigInt and other types"
  end.

Definition sumWeights (txs : list TxWithEventAndFee) : Res N :=
  fold_left
    (fun total tx => res_bind total (fun t => res_bind (dispatchedWeight tx)
                                                 (fun x => Ok (t + x)%N)))
    txs (Ok 0%N).

(** [toNumber()] of a 64-bit on-chain integer: refused above 53 bits. *)
Definition toNumber (n : N) : Res Z :=
  if (n <? 2 ^ 53)%N then Ok (Z.of_N n)
  else Err "Number can only safely store up to 53 bits".

(** [Number((blockWeight * 10000n) / maxBlockWeight) / 100]. *)
Definition weightPercentageOf (blockWeight maxBlockWeight : N) : Res Js.number :=
  if (maxBlockWeight =? 0)%N then Err "RangeError: Division by zero"
  else Ok (Js.div (Js.ofN ((blockWeight * 10000) / maxBlockWeight)) (Js.ofZ 100)).

(** [getBlockDetails] from the answer of [api.at] on. *)
Definition getBlockDetailsFrom (api : Api) (host : Host) (blockHash : Hash)
  : M BlockDetails :=
  '(b, (recs, time)) <-
     par (rpc api (ReqGetBlock blockHash) (getBlock api blockHash))
         (par (rpc api (ReqEvents blockHash) (systemEvents api blockHash))
              (rpc api (ReqTimestamp blockHash) (timestampNow api blockHash))) ;;
  let authorId := authorIdOf b in
  '(fees, name) <-
     par (parAll (map (fun ext =>
                         rpc api (ReqQueryInfo (ext_hex ext) (parentHash (header b)))
                             (queryInfo api (ext_hex ext) (parentHash (header b))))
                      (extrinsics b)))
         (match authorId with
          | Some (String _ _ as a) => getAuthorIdentity api host a
          | _ => ret zeroAuthor
          end) ;;
  let txs := mapExtrinsics (extrinsics b) recs fees in
  blockWeight <- lift (sumWeights txs) ;;
  t <- lift (toNumber time) ;;
  wp <- lift (weightPercentageOf blockWeight (maxBlock api)) ;;
  ret {| block := b; authorName := name; blockTime := t;
         weightPercentage := wp; txWithEvents := txs; records := recs;
         realtime := None |}.

(** The [debug] trace of the first line writes to the diagnostic stream only
    and is left out; [maxBlockWeight] is a constant of the connection. *)
Definition getBlockDetails (api : Api) (host : Host) (blockHash : Hash)
  : M BlockDetails :=
  _ <- rpc api (ReqAt blockHash) (api_at api blockHash) ;;
  getBlockDetailsFrom api host blockHash.

(** ** Range walker *)

Record BlockRangeOption := {
  from : Z;
  to : Z;
  concurrency : option Z }.

(** The inner [for] loop: the block numbers whose tasks are started, and the
    value of [current] after it.  The loop runs at most [to - current + 1]
    times, so a budget of that size is never the reason it stops. *)
Fixpoint startTasks (budget : nat) (i conc current upto : Z) : list Z * Z :=
  match budget with
  | O => ([], current)
  | S budget' =>
      if (i <? conc) && (current <=? upto) then
        let '(ns, c) := startTasks budget' (i + 1) conc (current + 1) upto in
        (current :: ns, c)
      else ([], current)
  end.

(** [api.rpc.chain.getBlockHash(n).then((hash) => getBlockDetails(api, hash))]. *)
Definition blockTask (api : Api) (host : Host) (n : Z) : M BlockDetails :=
  h <- rpc api (ReqGetBlockHash n) (getBlockHash api n) ;;
  getBlockDetails api host h.

(** [for (const blockDetails of blocksDetails) await callBack(blockDetails)].
    [calls] records, in order, the snapshots the callback has been invoked
    with; the callback cannot touch that record. *)
Fixpoint deliverEach (callBack : BlockDetails -> M unit) (l : list BlockDetails)
    (calls : list BlockDetails) (w : World) : Res unit * World * list BlockDetails :=
  match l with
  | [] => (Ok tt, w, calls)
  | d :: l' =>
      match callBack d w with
      | (Ok _, w') => deliverEach callBack l' (calls ++ [d])%list w'
      | (Err e, w') => (Err e, w', (calls ++ [d])%list)
      end
  end.

(** The [while] loop, with the number of iterations it may still take; [None]
    when they are used up before the loop condition fails. *)
Fixpoint exploreLoop (fuel : nat) (api : Api) (host : Host) (conc upto : Z)
    (callBack : BlockDetails -> M unit) (current : Z)
    (calls : list BlockDetails) (w : World)
  : option (Res unit * World * list BlockDetails) :=
  match fuel with
  | O => None
  | S fuel' =>
      if current <=? upto then
        let '(ns, current') :=
          startTasks (Z.to_nat (upto - current + 1)) 0 conc current upto in
        match parAll (map (blockTask api host) ns) w with
        | (Err e, w1) => Some (Err e, w1, calls)
        | (Ok blocksDetails, w1) =>
            match deliverEach callBack blocksDetails calls w1 with
            | (Err e, w2, calls') => Some (Err e, w2, calls')
            | (Ok _, w2, calls') =>
                exploreLoop fuel' api host conc upto callBack current' calls' w2
            end
        end
      else Some (Ok tt, w, calls)
  end.

Definition exploreBlockRange (fuel : nat) (api : Api) (host : Host)
    (range : BlockRangeOption) (callBack : BlockDetails -> M unit) (w : World)
  : option (Res unit * World * list BlockDetails) :=
  exploreLoop fuel api host (default 1 (concurrency range)) (to range) callBack
              (from range) [] w.

(** ** Live follower *)

(** The start-up baseline: the timestamp at the parent of the current head,
    zero when reading it fails. *)
Definition baselineTime (api : Api) : M Z :=
  fun w =>
    match (b <- rpc api ReqHeadBlock (headBlock api (now w)) ;;
           t <- rpc api (ReqTimestamp (parentHash (header b)))
                    (timestampNow api (parentHash (header b))) ;;
           lift (toNumber t)) w with
    | (Ok t, w') => (Ok t, w')
    | (Err _, w') => (Ok 0, w')
    end.

Inductive ListenEvent :=
| AggregationBegins (h : Hash)
| CallbackInvoked (h : Hash) (d : BlockDetails)
| CallbackReturned (h : Hash)
| HandlerRejected (h : Hash).

(** The follower between two turns of the event loop: what its closure
    holds (the callback, the variable [latestBlockTime]), the outcome of the
    awaited subscription, the handlers suspended at their [await], the
    callbacks whose promise is still pending, and what has happened so
    far. *)
Record Listener := {
  finalizedHeads : bool;
  closure_callBack : BlockDetails -> M unit;
  subscription : Res unit;
  latestBlockTime : Z;
  awaiting : list Hash;
  pending : list Hash;
  history : list ListenEvent;
  world : World }.

(** [listenBlocks] up to its return: the baseline is read and the handler is
    subscribed to the finalized heads or to the new heads, a call whose
    rejection is the rejection of [listenBlocks]; no head has come yet. *)
Definition listenBlocks (api : Api) (finalized : bool)
    (callBack : BlockDetails -> M unit) (w : World) : Listener :=
  let '(t, w1) := baselineTime api w in
  let '(unsubHeads, w2) :=
    rpc api (ReqSubscribeHeads finalized) (subscribeHeads api finalized) w1 in
  {| finalizedHeads := finalized;
     closure_callBack := callBack;
     subscription := unsubHeads;
     latestBlockTime := match t with Ok t => t | Err _ => 0 end;
     awaiting := []; pending := []; history := []; world := w2 |}.

Definition listenBestBlocks (api : Api) (callBack : BlockDetails -> M unit)
    (w : World) : Listener :=
  listenBlocks api false callBack w.

Definition listenFinalizedBlocks (api : Api) (callBack : BlockDetails -> M unit)
    (w : World) : Listener :=
  listenBlocks api true callBack w.

Fixpoint removeFirst (h : Hash) (l : list Hash) : list Hash :=
  match l with
  | [] => []
  | x :: l' => if String.eqb h x then l' else x :: removeFirst h l'
  end.

(** The handler up to its [await]: [getBlockDetails] has run up to its
    request [api.at] and the read of the pending pool has been issued, in
    that order. *)
Definition onHead (h : Hash) (s : Listener) : Listener :=
  {| finalizedHeads := finalizedHeads s;
     closure_callBack := closure_callBack s;
     subscription := subscription s;
     latestBlockTime := latestBlockTime s;
     awaiting := awaiting s ++ [h];
     pending := pending s;
     history := history s ++ [AggregationBegins h];
     world := logRequest ReqPendingExtrinsics (logRequest (ReqAt h) (world s)) |}.

(** [{...blockDetails, pendingTxs, elapsedMilliSecs: blockDetails.blockTime -
    latestBlockTime}]. *)
Definition mergeRealtime (d : BlockDetails) (txs : list Extrinsic) (latest : Z)
  : BlockDetails :=
  {| block := block d; authorName := authorName d; blockTime := blockTime d;
     records := records d; txWithEvents := txWithEvents d;
     weightPercentage := weightPercentage d;
     realtime := Some {| elapsedMilliSecs := blockTime d - latest;
                         pendingTxs := txs |} |}.

(** What the [Promise.all] of the handler settles to: the answers of the two
    requests issued before the [await] come in, the pool being the one of
    that instant, and [getBlockDetails] goes on from the answer of [api.at]
    when there is one. *)
Definition headAnswers (api : Api) (host : Host) (h : Hash)
  : M (BlockDetails * list Extrinsic) :=
  fun w =>
    let '(ra, w1) := answerOf api (ReqAt h) (api_at api h) w in
    let '(rp, w2) :=
      answerOf api ReqPendingExtrinsics (pendingExtrinsics api (now w1)) w1 in
    let '(rd, w3) :=
      match ra with
      | Ok _ => getBlockDetailsFrom api host h w2
      | Err e => (Err e, w2)
      end in
    (both rd rp, w3).

(** The handler from its [await] on: the callback is invoked on the merged
    snapshot (its promise is not awaited) and [latestBlockTime] is updated;
    a rejected [Promise.all] ends the handler without either.  The requests
    of the aggregation are accounted to the world at this point, where
    their answers are in, and so is what the callback does once entered;
    whether its promise is fulfilled or rejected is looked at by no one. *)
Definition resumeHead (api : Api) (host : Host) (h : Hash) (s : Listener)
  : Listener :=
  let '(r, w') := headAnswers api host h (world s) in
  match r with
  | Ok (blockDetails, pendingTxs) =>
      let d := mergeRealtime blockDetails pendingTxs (latestBlockTime s) in
      {| finalizedHeads := finalizedHeads s;
         closure_callBack := closure_callBack s;
         subscription := subscription s;
         latestBlockTime := blockTime blockDetails;
         awaiting := removeFirst h (awaiting s);
         pending := pending s ++ [h];
         history := history s ++ [CallbackInvoked h d];
         world := snd (closure_callBack s d w') |}
  | Err _ =>
      {| finalizedHeads := finalizedHeads s;
         closure_callBack := closure_callBack s;
         subscription := subscription s;
         latestBlockTime := latestBlockTime s;
         awaiting := removeFirst h (awaiting s);
         pending := pending s;
         history := history s ++ [HandlerRejected h];
         world := w' |}
  end.

(** The promise returned by the callback settles. *)
Definition callbackReturns (h : Hash) (s : Listener) : Listener :=
  {| finalizedHeads := finalizedHeads s;
     closure_callBack := closure_callBack s;
     subscription := subscription s;
     latestBlockTime := latestBlockTime s;
     awaiting := awaiting s;
     pending := removeFirst h (pending s);
     history := history s ++ [CallbackReturned h];
     world := world s |}.

(** One turn of the event loop.  A subscription that was accepted calls the
    handler for each head it receives; nothing in [listenBlocks] makes it
    wait for an earlier handler or for the promise of an earlier callback. *)
Inductive listenStep (api : Api) (host : Host) : Listener -> Listener -> Prop :=
| step_head h s :
    subscription s = Ok tt ->
    listenStep api host s (onHead h s)
| step_resume h s :
    In h (awaiting s) ->
    listenStep api host s (resumeHead api host h s)
| step_return h s :
    In h (pending s) ->
    listenStep api host s (callbackReturns h s).

Inductive listenRun (api : Api) (host : Host) : Listener -> Listener -> Prop :=
| run_refl s : listenRun api host s s
| run_step s1 s2 s3 :
    listenRun api host s1 s2 -> listenStep api host s2 s3 ->
    listenRun api host s1 s3.


Definition deliveries (s : Listener) : list BlockDetails :=
  omap (fun e => match e with CallbackInvoked _ d => Some d | _ => None end)
       (history s).






(** ** Snapshot formatter *)

Record Options := {
  prefix : option string;
  suffix : option string }.

(** [chalk]: the text between the escape sequences of the colour, or the
    text alone when colours are off. *)
Definition esc : string := String (ascii_of_nat 27) "[".

Definition chalk (host : Host) (code : string) (s : string) : string :=
  if colorEnabled host then esc ++ code ++ "m" ++ s ++ esc ++ "39m" else s.

Definition red (host : Host) := chalk host "31".
Definition green (host : Host) := chalk host "32".
Definition yellow (host : Host) := chalk host "33".

Definition textOfNat (n : nat) : string := Js.stringOfZ (Z.of_nat n).

(** [Number(n).toString()] for a [BigInt] [n]. *)
Definition textOfBigInt (n : N) : string :=
  default "" (Js.toStringIntegral (Js.ofN n)).

Definition twoDigits (n : Z) : string :=
  if n <? 10 then "0" ++ Js.stringOfZ n else Js.stringOfZ n.

(** [new Date(t).toLocaleTimeString("fr-FR", ...)] with two-digit hour,
    minute and second: the local time of day as [HH:MM:SS]. *)
Definition toLocaleTimeString (host : Host) (t : Z) : string :=
  let secs := ((t + localOffset host t) / 1000) mod 86400 in
  twoDigits (secs / 3600) ++ ":" ++ twoDigits ((secs / 60) mod 60) ++ ":"
    ++ twoDigits (secs mod 60).

Definition secondTextOf (host : Host) (d : BlockDetails) (previous : option BlockDetails)
  : option string :=
  match previous with
  | Some p =>
      let elapsed := blockTime d - blockTime p in
      let seconds :=
        Js.padStart
          (Js.toFixed (Js.div (Js.floor (Js.div (Js.ofZ elapsed) (Js.ofZ 100)))
                              (Js.ofZ 10)) 1) 5 in
      Some (if 30000 <? elapsed then red host seconds
            else if 14000 <? elapsed then yellow host seconds
            else seconds)
  | None => None
  end.

Definition weightTextOf (host : Host) (d : BlockDetails) : string :=
  let w := Js.padStart (Js.toFixed (weightPercentage d) 2) 5 in
  if Js.gtb (weightPercentage d) (Js.ofZ 60) then red host w
  else if Js.gtb (weightPercentage d) (Js.ofZ 30) then yellow host w
  else if Js.gtb (weightPercentage d) (Js.ofZ 10) then green host w
  else w.

Definition txPoolTextOf (host : Host) (txs : list Extrinsic) : string :=
  let txPool := Js.padStart (textOfNat (length txs)) 4 in
  if (1000 <? length txs)%nat then red host txPool
  else if (100 <? length txs)%nat then yellow host txPool
  else txPool.

(** The pending transactions whose hash was not pending at the previous
    snapshot. *)
Definition txPoolDiffOf (txs previousTxs : list Extrinsic) : nat :=
  let newPendingHashes := map ext_hash previousTxs in
  length (List.filter (fun x => negb (existsb (String.eqb x) newPendingHashes))
                      (map ext_hash txs)).

Definition poolIncTextOf (host : Host) (txs previousTxs : list Extrinsic) : string :=
  let txPoolDiff := txPoolDiffOf txs previousTxs in
  let poolInc := Js.padStart (textOfNat txPoolDiff) 3 in
  if (80 <? txPoolDiff)%nat then red host poolInc
  else if (30 <? txPoolDiff)%nat then yellow host poolInc
  else poolInc.

(** [[Pool:...]] with its optional [(+...)], empty for a snapshot that has no
    [pendingTxs]. *)
Definition poolSegment (host : Host) (d : BlockDetails) (previous : option BlockDetails)
  : string :=
  match realtime d with
  | Some rt =>
      "[Pool:" ++ txPoolTextOf host (pendingTxs rt)
        ++ match previous ≫= realtime with
           | Some prt => "(+" ++ poolIncTextOf host (pendingTxs rt) (pendingTxs prt) ++ ")"
           | None => ""
           end
        ++ "]"
  | None => ""
  end.

Definition extTextOf (host : Host) (d : BlockDetails) : string :=
  let n := length (extrinsics (block d)) in
  let ext := Js.padStart (textOfNat n) 3 in
  if (100 <=? n)%nat then red host ext
  else if (50 <=? n)%nat then yellow host ext
  else if (15 <? n)%nat then green host ext
  else ext.

Definition isEthTransact (tx : Extrinsic) : bool :=
  String.eqb (ext_section tx) "ethereum" && String.eqb (ext_method tx) "transact".

Definition ethTxsOf (d : BlockDetails) : nat :=
  length (List.filter isEthTransact (extrinsics (block d))).

Definition evmTextOf (host : Host) (d : BlockDetails) : string :=
  let ethTxs := ethTxsOf d in
  let eths := Js.padStart (textOfNat ethTxs) 3 in
  if (97 <=? ethTxs)%nat then red host eths
  else if (47 <=? ethTxs)%nat then yellow host eths
  else if (12 <? ethTxs)%nat then green host eths
  else eths.

(** The filter [dispatchInfo.paysFee.isYes && !dispatchInfo.class.isMandatory];
    reading [paysFee] of an absent [dispatchInfo] throws. *)
Fixpoint payingTxs (txs : list TxWithEventAndFee)
  : Res (list (TxWithEventAndFee * DispatchInfo)) :=
  match txs with
  | [] => Ok []
  | tx :: txs' =>
      match dispatchInfo tx with
      | None => Err "TypeError: cannot read properties of undefined"
      | Some di =>
          res_bind (payingTxs txs') (fun rest =>
            Ok (if paysFee_isYes di && negb (class_isMandatory di)
                then (tx, di) :: rest else rest))
      end
  end.

(** [payload.asX?.gasPrice]: [undefined] for an absent accessor or a variant
    without [gasPrice], the exception of the accessor otherwise. *)
Definition variantGasPrice (v : Accessor) : Res (option N) :=
  match v with
  | Absent => Ok None
  | Holds data => Ok (tx_gasPrice data)
  | Throws => Err "Cannot convert via the accessor of another variant"
  end.

(** One operand of the [||] chain over objects, truthy whenever present. *)
Definition orGasPrice (v : Res (option N)) (next : Res N) : Res N :=
  res_bind v (fun o =>
    match o with
    | Some g => Ok g
    | None => next
    end).

(** [BigInt(payload.asLegacy?.gasPrice || payload.asEip2930?.gasPrice ||
    payload.asEip1559?.gasPrice || payload.gasPrice)]. *)
Definition gasPriceOf (payload : Arg) : Res N :=
  orGasPrice (variantGasPrice (asLegacy payload))
    (orGasPrice (variantGasPrice (asEip2930 payload))
       (orGasPrice (variantGasPrice (asEip1559 payload))
          (res_of_option (arg_gasPrice payload)
                         "TypeError: Cannot convert undefined to a BigInt"))).

Definition feeOfTx (p : N) (txd : TxWithEventAndFee * DispatchInfo) : Res N :=
  let '(tx, di) := txd in
  if String.eqb (ext_section (extrinsic tx)) "ethereum" then
    match head (ext_args (extrinsic tx)) with
    | None => Err "TypeError: cannot read properties of undefined"
    | Some payload =>
        res_bind (gasPriceOf payload) (fun gasPrice =>
          Ok (p + (gasPrice * weight di) / 25000)%N)
    end
  else
    match fee tx with
    | None => Err "TypeError: cannot read properties of undefined"
    | Some f => Ok (p + partialFee f)%N
    end.

Definition feesOf (d : BlockDetails) : Res N :=
  res_bind (payingTxs (txWithEvents d)) (fun paying =>
    fold_left (fun acc txd => res_bind acc (fun p => feeOfTx p txd)) paying (Ok 0%N)).

(** [payload.asX?.value.toBigInt()]: [undefined] for an absent accessor, a
    throw for a variant without [value] and for the accessor of another
    variant. *)
Definition variantValue (v : Accessor) : Res (option N) :=
  match v with
  | Absent => Ok None
  | Holds data =>
      match tx_value data with
      | None => Err "TypeError: cannot read properties of undefined"
      | Some n => Ok (Some n)
      end
  | Throws => Err "Cannot convert via the accessor of another variant"
  end.

(** One operand of the [||] chain over [BigInt]s: [0n] and [undefined] are
    falsy and pass on to [next]. *)
Definition orValue (v : Res (option N)) (next : Res N) : Res N :=
  res_bind v (fun o =>
    match o with
    | Some n => if (n =? 0)%N then next else Ok n
    | None => next
    end).

Definition ethValueOf (payload : Arg) : Res N :=
  orValue (variantValue (asLegacy payload))
    (orValue (variantValue (asEip2930 payload))
       (orValue (variantValue (asEip1559 payload))
          (res_of_option (arg_value payload)
                         "TypeError: cannot read properties of undefined"))).

Definition isTransfer (e : Event) : bool :=
  String.eqb (ev_section e) "balances" && String.eqb (ev_method e) "Transfer".

Definition transferOfEvent (total : N) (e : Event) : Res N :=
  if isTransfer e then
    match ev_data e !! 2%nat with
    | Some (DataAmount n) => Ok (total + n)%N
    | _ => Err "TypeError: toBigInt is not a function"
    end
  else Ok total.

Definition transferredOfTx (tx : TxWithEventAndFee) : Res N :=
  if isEthTransact (extrinsic tx) then
    match head (ext_args (extrinsic tx)) with
    | None => Err "TypeError: cannot read properties of undefined"
    | Some payload => ethValueOf payload
    end
  else
    fold_left (fun acc e => res_bind acc (fun total => transferOfEvent total e))
              (events tx) (Ok 0%N).

Definition transferredOf (d : BlockDetails) : Res N :=
  res_bind (res_mapM transferredOfTx (txWithEvents d)) (fun vs =>
    Ok (fold_left N.add vs 0%N)).

Definition feesTextOf (host : Host) (fees : N) : string :=
  let feesTokens := Js.div (Js.ofN (fees / 10 ^ 15)) (Js.ofZ 1000) in
  let feesTokenTxt := Js.padStart (Js.toFixed feesTokens 3) 5 in
  if Js.geb feesTokens Js.lit_0_1 then red host feesTokenTxt
  else if Js.geb feesTokens Js.lit_0_01 then yellow host feesTokenTxt
  else if Js.geb feesTokens Js.lit_0_001 then green host feesTokenTxt
  else feesTokenTxt.

Definition transferredTextOf (host : Host) (transferred : N) : string :=
  let transferredTokens := Js.ofN (transferred / 10 ^ 18) in
  let transferredText := Js.padStart (textOfBigInt (transferred / 10 ^ 18)) 5 in
  if Js.geb transferredTokens (Js.ofZ 100) then red host transferredText
  else if Js.geb transferredTokens (Js.ofZ 50) then yellow host transferredText
  else if Js.gtb transferredTokens (Js.ofZ 15) then green host transferredText
  else transferredText.

Definition shortened (s : string) : string :=
  Js.substring2 s 0 7 ++ ".." ++ Js.substringFrom s (Z.of_nat (String.length s) - 4).

Definition authorIdText (d : BlockDetails) : string :=
  if (20 <? String.length (authorName d))%nat then shortened (authorName d)
  else authorName d.

Definition optionText (o : option Options) (field : Options -> option string)
  : option string :=
  match o ≫= field with
  | Some (String _ _ as s) => Some s
  | _ => None
  end.

(** Everything of the line that follows the time of day and its blank. *)
Definition lineBody (host : Host) (d : BlockDetails) (options : option Options)
    (previous : option BlockDetails) (fees transferred : N) : string :=
  match optionText options prefix with Some p => p ++ " " | None => "" end
  ++ "#" ++ Js.padEnd (Js.stringOfZ (number (header (block d)))) 7
  ++ " [" ++ weightTextOf host d ++ "%, " ++ feesTextOf host fees ++ " fees, "
  ++ extTextOf host d ++ " Txs (" ++ evmTextOf host d ++ " Eth)(<->"
  ++ transferredTextOf host transferred ++ ")]"
  ++ poolSegment host d previous
  ++ match secondTextOf host d previous with
     | Some secondText => "[" ++ secondText ++ "s]"
     | None => ""
     end
  ++ "(hash: " ++ shortened (hash (header (block d))) ++ ")"
  ++ match optionText options suffix with Some s => " " ++ s | None => "" end
  ++ " by " ++ authorIdText d.

Definition generateBlockDetailsLog (host : Host) (d : BlockDetails)
    (options : option Options) (previous : option BlockDetails) : M string :=
  fees <- lift (feesOf d) ;;
  transferred <- lift (transferredOf d) ;;
  t <- dateNow ;;
  ret (toLocaleTimeString host t ++ " "
         ++ lineBody host d options previous fees transferred).

Definition printBlockDetails (host : Host) (d : BlockDetails)
    (options : option Options) (previous : option BlockDetails) : M unit :=
  line <- generateBlockDetailsLog host d options previous ;;
  fun w => (Ok tt, consoleLog line w).

(** ** Vocabulary of the statements *)

Definition blockNumberOf (d : BlockDetails) : Z := number (header (block d)).

(** The sum of a list of weights, as the spec words it. *)
Definition totalWeight (ws : list N) : N := fold_right N.add 0%N ws.

(** [x] is the dispatched weight of [tx]. *)
Definition hasWeight (tx : TxWithEventAndFee) (x : N) : Prop :=
  option_map weight (dispatchInfo tx) = Some x.

(** The node refuses the request [r].  The head and the pending pool, whose
    answers depend on the instant, are not requests of the aggregator. *)
Definition refused (api : Api) (r : Request) : bool :=
  match r with
  | ReqAt h => negb (isOk (api_at api h))
  | ReqGetBlockHash n => negb (isOk (getBlockHash api n))
  | ReqGetBlock h => negb (isOk (getBlock api h))
  | ReqEvents h => negb (isOk (systemEvents api h))
  | ReqTimestamp h => negb (isOk (timestampNow api h))
  | ReqQueryInfo hex parent => negb (isOk (queryInfo api hex parent))
  | ReqIdentityOf a => negb (isOk (identityOf api a))
  | ReqQueryStorageAt keys at_hash => negb (isOk (queryStorageAt api keys at_hash))
  | ReqMappingWithDeposit a => negb (isOk (mappingWithDeposit api a))
  | ReqSubscribeHeads finalized => negb (isOk (subscribeHeads api finalized))
  | ReqHeadBlock | ReqPendingExtrinsics => false
  end.

(** A computation only appends to the log of requests, and it ends in [Ok]
    only if none of the requests it issued was refused. *)
Definition answeredOrFails {A} (api : Api) (m : M A) : Prop :=
  forall w, exists rs,
    requests (snd (m w)) = (requests w ++ rs)%list
    /\ (isOk (fst (m w)) = true -> Forall (fun q => refused api q = false) rs).

(** The text of an all-zero account identifier: [0x] followed by zeros. *)
Fixpoint allZeros (s : string) : bool :=
  match s with
  | EmptyString => true
  | String c s' => Ascii.eqb c "0"%char && allZeros s'
  end.

Definition isZeroAccount (s : string) : bool :=
  match s with
  | String a (String b (String c rest)) =>
      Ascii.eqb a "0"%char && Ascii.eqb b "x"%char && allZeros (String c rest)
  | _ => false
  end.

(** A computation leaves the console as it was. *)
Definition keepsConsole {A} (m : M A) : Prop :=
  forall w, console (snd (m w)) = console w.

(** The node answers the author-mapping and the identity queries, be it
    with the absence of a mapping or of an identity. *)
Definition resolverServes (api : Api) : Prop :=
  forall a, isOk (mappingWithDeposit api a) = true /\ isOk (identityOf api a) = true.

(** Every extrinsic of the block has a dispatch outcome among the events. *)
Definition allDispatched (b : Block) (recs : list EventRecord) : bool :=
  forallb (fun o => match o with Some _ => true | None => false end)
          (map dispatchInfo (mapExtrinsics (extrinsics b) recs [])).

(** The node serves the block of number [n]: it has a hash for the number
    and, at that hash, the block with this number, its events with a
    dispatch outcome for each extrinsic, a timestamp below 2^53 and a fee
    quote for each extrinsic. *)
Definition nodeServes (api : Api) (n : Z) : Prop :=
  exists h b recs t,
    getBlockHash api n = Ok h
    /\ api_at api h = Ok tt
    /\ getBlock api h = Ok b
    /\ number (header b) = n
    /\ systemEvents api h = Ok recs
    /\ timestampNow api h = Ok t
    /\ (t < 2 ^ 53)%N
    /\ List.Forall (fun ext => isOk (queryInfo api (ext_hex ext) (parentHash (header b)))
                               = true) (extrinsics b)
    /\ allDispatched b recs = true.

(** The block of a snapshot is the block the node holds under its number. *)
Definition heldBy (api : Api) (d : BlockDetails) : Prop :=
  exists h, getBlockHash api (blockNumberOf d) = Ok h /\ getBlock api h = Ok (block d).


(** The name the identity cache gives an account: the empty text for the
    empty account; otherwise the display text of the identity its entry
    holds, or the account itself when the entry holds none. *)
Definition cachedName (w : World) (a name : string) : Prop :=
  (a = "" /\ name = "")
  \/ exists e, identityCache w !! a = Some e
               /\ name = match identity e with
                         | Some r => displayText r
                         | None => a
                         end.




(** No entry leaves a cache: a key present in the identity cache or in the
    author-mapping cache before a computation is present after it. *)
Definition keepsEntries {A} (m : M A) : Prop :=
  forall w k,
    (is_Some (identityCache w !! k) -> is_Some (identityCache (snd (m w)) !! k))
    /\ (is_Some (authorMappingCache w !! k) ->
        is_Some (authorMappingCache (snd (m w)) !! k)).

(** Both caches are the same in two worlds. *)
Definition sameCaches (w w' : World) : Prop :=
  identityCache w' = identityCache w /\ authorMappingCache w' = authorMappingCache w.

(** ** A small chain to run the code on

    Blocks 5 to 11.  Block 6 carries three extrinsics and no author; block 8
    names its author in a [setAuthor] inherent and holds an extrinsic whose
    fee quote the node refuses; block 9 names, in its digest, an author that
    has no mapped account; blocks 10 and 11 name, the one in a [setAuthor]
    inherent and the other in its digest, an author whose account has a
    registered identity. *)

Definition demoHost : Host :=
  {| xxhashAsHex := fun s _ => "x" ++ s;
     u8aHex := fun s => s;
     ethereumEncode := fun s => s;
     colorEnabled := false;
     localOffset := fun _ => 0 |}.

Definition colorHost : Host :=
  {| xxhashAsHex := xxhashAsHex demoHost;
     u8aHex := u8aHex demoHost;
     ethereumEncode := ethereumEncode demoHost;
     colorEnabled := true;
     localOffset := localOffset demoHost |}.

Definition demoWorld : World :=
  {| now := 86400000 * 20000 + 45296000;
     identityCache := ∅;
     authorMappingCache := ∅;
     requests := [];
     console := [] |}.

Definition noArg (text : string) : Arg :=
  {| arg_text := text; asLegacy := Absent; asEip2930 := Absent; asEip1559 := Absent;
     arg_gasPrice := None; arg_value := None |}.

Definition legacyPayload (gasPrice value : N) : Arg :=
  {| arg_text := "legacy";
     asLegacy := Holds {| tx_gasPrice := Some gasPrice; tx_value := Some value |};
     asEip2930 := Throws; asEip1559 := Throws;
     arg_gasPrice := None; arg_value := None |}.

Definition timestampSet : Extrinsic :=
  {| ext_section := "timestamp"; ext_method := "set"; ext_args := [noArg "4000"];
     ext_hex := "0x01"; ext_hash := "0xe1" |}.

Definition ethTransact : Extrinsic :=
  {| ext_section := "ethereum"; ext_method := "transact";
     ext_args := [legacyPayload (10 ^ 9) (15 * 10 ^ 18)];
     ext_hex := "0x02"; ext_hash := "0xe2" |}.

Definition balancesTransfer : Extrinsic :=
  {| ext_section := "balances"; ext_method := "transfer";
     ext_args := [noArg "0xdest"; noArg "5000000000000000000"];
     ext_hex := "0x03"; ext_hash := "0xe3" |}.

Definition setAuthor (author : string) : Extrinsic :=
  {| ext_section := "authorInherent"; ext_method := "setAuthor";
     ext_args := [noArg author]; ext_hex := "0x04"; ext_hash := "0xe4" |}.

Definition unquotable : Extrinsic :=
  {| ext_section := "system"; ext_method := "remark"; ext_args := [];
     ext_hex := "0xbad"; ext_hash := "0xe5" |}.

Definition success (index : nat) (w : N) (pays mandatory : bool) : EventRecord :=
  {| phase := Some index;
     event := {| ev_section := "system"; ev_method := "ExtrinsicSuccess";
                 ev_data := [DataDispatch {| weight := w; paysFee_isYes := pays;
                                              class_isMandatory := mandatory |}] |} |}.

Definition transferEvent (index : nat) (amount : N) : EventRecord :=
  {| phase := Some index;
     event := {| ev_section := "balances"; ev_method := "Transfer";
                 ev_data := [DataOpaque; DataOpaque; DataAmount amount] |} |}.

Definition demoBlock (h : Hash) : option Block :=
  let mk n parent logs exts :=
    Some {| header := {| number := n; hash := h; parentHash := parent;
                         digestLogs := logs |};
            extrinsics := exts |} in
  if String.eqb h "0xb5" then mk 5 "0xb4" [] []
  else if String.eqb h "0xb6" then
    mk 6 "0xb5" [] [timestampSet; ethTransact; balancesTransfer]
  else if String.eqb h "0xb7" then mk 7 "0xb6" [] []
  else if String.eqb h "0xb8" then
    mk 8 "0xb7" [] [setAuthor "0xauthor1"; unquotable]
  else if String.eqb h "0xb9" then
    mk 9 "0xb8" [OtherDigest; PreRuntime ["nmbs"; "0xauthor2"]] []
  else if String.eqb h "0xb10" then
    mk 10 "0xb9" [] [setAuthor "0xauthor1"; balancesTransfer]
  else if String.eqb h "0xb11" then
    mk 11 "0xb10" [PreRuntime ["nmbs"; "0xauthor1"]] []
  else None.

Definition demoEvents (h : Hash) : list EventRecord :=
  if String.eqb h "0xb6" then
    [ success 0 1000000 false true;
      success 1 75000000000 true false;
      transferEvent 2 (5 * 10 ^ 18);
      success 2 250000000 true false ]
  else if String.eqb h "0xb8" then
    [ success 0 1000000 false true; success 1 2000000 true false ]
  else if String.eqb h "0xb10" then
    [ success 0 1000000 false true;
      transferEvent 1 (5 * 10 ^ 18);
      success 1 250000000 true false ]
  else [].

Definition demoTimestamp (h : Hash) : Res N :=
  if String.eqb h "0xb4" then Ok 400%N
  else if String.eqb h "0xb5" then Ok 1000%N
  else if String.eqb h "0xb6" then Ok 4000%N
  else if String.eqb h "0xb7" then Ok 9000%N
  else if String.eqb h "0xb8" then Ok 12000%N
  else if String.eqb h "0xb9" then Ok 15000%N
  else if String.eqb h "0xb10" then Ok 18000%N
  else if String.eqb h "0xb11" then Ok 21000%N
  else Err "unknown block".

Definition alice : PalletIdentityRegistration := {| display := Raw "alice" |}.

Definition demoApi : Api :=
  {| maxBlock := 500000000000;
     api_at := fun _ => Ok tt;
     getBlockHash := fun n =>
       if (5 <=? n) && (n <=? 11) then Ok ("0xb" ++ Js.stringOfZ n)
       else Err "unknown block number";
     getBlock := fun h => res_of_option (demoBlock h) "unknown block";
     headBlock := fun _ => res_of_option (demoBlock "0xb5") "unknown block";
     systemEvents := fun h => Ok (demoEvents h);
     timestampNow := demoTimestamp;
     queryInfo := fun hex _ =>
       if String.eqb hex "0xbad" then Err "fee quote refused"
       else Ok {| partialFee := 2 * 10 ^ 15 |};
     identityOf := fun a =>
       if String.eqb a "0xacc1" then Ok (Some alice) else Ok None;
     queryStorageAt := fun keys _ =>
       Ok (map (fun k => if String.eqb k (getIdentityKey demoHost "0xacc1")
                         then Some alice else None) keys);
     mappingWithDeposit := fun a =>
       if String.eqb a "0xauthor1" then Ok (Some "0xacc1") else Ok None;
     pendingExtrinsics := fun _ => Ok [];
     subscribeHeads := fun _ => Ok tt;
     latency := fun _ => 5 |}.

Definition authoredRange : BlockRangeOption :=
  {| from := 9; to := 11; concurrency := Some 2 |}.

Definition demoCallBack (d : BlockDetails) : M unit :=
  fun w => (Ok tt, consoleLog (authorName d) w).

Definition demoStart : Listener := listenBestBlocks demoApi demoCallBack demoWorld.


(** The second head arrives while the callback of the first is still
    pending, its handler having ended. *)
Definition demoOverlap : Listener :=
  callbackReturns "0xb5"
    (onHead "0xb6" (resumeHead demoApi demoHost "0xb5" (onHead "0xb5" demoStart))).


(** The synthetic snapshot of the formatter: weight 45.00%, three
    extrinsics of which one ethereum transaction, fees of 0.005 token, 20
    tokens transferred, 50 pending transactions, and a previous snapshot
    3000 ms older whose 40 pending transactions are all still pending. *)

Definition pendingTx (i : nat) : Extrinsic :=
  {| ext_section := "balances"; ext_method := "transfer"; ext_args := [];
     ext_hex := "0x05"; ext_hash := "0xp" ++ textOfNat i |}.

Definition pool (n : nat) : list Extrinsic := map pendingTx (seq 0 n).

Definition syntheticBlock : Block :=
  {| header := {| number := 1234; hash := "0x1234567890abcdef";
                  parentHash := "0x0fedcba987654321"; digestLogs := [] |};
     extrinsics := [timestampSet; ethTransact; balancesTransfer] |}.

Definition syntheticAt (time : Z) (pending : nat) : BlockDetails :=
  {| block := syntheticBlock;
     authorName := "abc...wxyz";
     blockTime := time;
     records := demoEvents "0xb6";
     txWithEvents :=
       mapExtrinsics (extrinsics syntheticBlock) (demoEvents "0xb6")
                     (repeat {| partialFee := 2 * 10 ^ 15 |} 3);
     weightPercentage := Js.ofZ 45;
     realtime := Some {| elapsedMilliSecs := 3000; pendingTxs := pool pending |} |}.

Definition syntheticSnapshot : BlockDetails := syntheticAt 100000 50.
Definition syntheticPrevious : BlockDetails := syntheticAt 97000 40.

(** The part of the line that the synthetic snapshot fixes, from the blank
    after the block number to the opening of the hash. *)
Definition syntheticMiddle : string :=
  " [45.00%, 0.005 fees,   3 Txs (  1 Eth)(<->   20)][Pool:  50(+ 10)][  3.0s](hash: ".

(** A step of a computation in [M] that ended in [Ok] did so in each of its
    parts. *)
Ltac bind_ok H :=
  match type of H with
  | bind ?m ?k ?w = (Ok _, _) =>
      let a := fresh "a" in
      let e := fresh "e" in
      let w' := fresh "w" in
      let E := fresh "E" in
      unfold bind at 1 in H;
      destruct (m w) as [[a | e] w'] eqn:E; [| discriminate H]
  end.

(** The same chain behind a node that refuses the identity, mapping and head
    requests. *)
Definition downApi : Api :=
  {| maxBlock := maxBlock demoApi;
     api_at := api_at demoApi;
     getBlockHash := getBlockHash demoApi;
     getBlock := getBlock demoApi;
     headBlock := fun _ => Err "node down";
     systemEvents := systemEvents demoApi;
     timestampNow := timestampNow demoApi;
     queryInfo := queryInfo demoApi;
     identityOf := fun _ => Err "node down";
     queryStorageAt := fun _ _ => Err "node down";
     mappingWithDeposit := fun _ => Err "node down";
     pendingExtrinsics := pendingExtrinsics demoApi;
     subscribeHeads := fun _ => Err "node down";
     latency := latency demoApi |}.


(** A range walked without any concurrency, and a callback that gives up on
    block 6. *)
Definition stuckRange : BlockRangeOption :=
  {| from := 5; to := 7; concurrency := Some 0 |}.

Definition oneByOne : BlockRangeOption :=
  {| from := 5; to := 7; concurrency := None |}.

Definition stopAtSix (d : BlockDetails) : M unit :=
  fun w => if blockNumberOf d =? 6 then (Err "stop", w)
           else (Ok tt, consoleLog (authorName d) w).

(** What a delivered snapshot has to do with the head it was delivered for:
    its block, its events and its timestamp are the answers of the node for
    that head, and it carries the pending transactions. *)
Definition deliveredFor (api : Api) (e : ListenEvent) : Prop :=
  match e with
  | CallbackInvoked h d =>
      getBlock api h = Ok (block d)
      /\ systemEvents api h = Ok (records d)
      /\ timestampNow api h = Ok (Z.to_N (blockTime d))
      /\ 0 <= blockTime d < 2 ^ 53
      /\ realtime d <> None
  | _ => True
  end.

(** A snapshot whose only extrinsic is the timestamp inherent, and a range
    walked in a single batch that holds block 8. *)
Definition inherentOnly : BlockDetails :=
  {| block := {| header := header syntheticBlock; extrinsics := [timestampSet] |};
     authorName := "abc...wxyz";
     blockTime := 100000;
     records := [success 0 1000000 false true];
     txWithEvents :=
       mapExtrinsics [timestampSet] [success 0 1000000 false true] [];
     weightPercentage := Js.ofZ 0;
     realtime := None |}.

Definition oneBatch : BlockRangeOption :=
  {| from := 7; to := 9; concurrency := Some 5 |}.

(** * Properties *)

(** ** The host functions on known values *)

Example toFixed_values :
  Js.toFixed (Js.ofZ 45) 2 = "45.00"
  /\ Js.toFixed (Js.div (Js.ofZ 1505) (Js.ofZ 100)) 2 = "15.05"
  /\ Js.toFixed (Js.div (Js.ofZ 5) (Js.ofZ 1000)) 3 = "0.005"
  /\ Js.toFixed (Js.div (Js.ofZ 1005) (Js.ofZ 1000)) 2 = "1.00"
  /\ Js.toFixed (Js.div (Js.ofZ (-1)) (Js.ofZ 1000)) 2 = "-0.00"
  /\ Js.toFixed (Js.div (Js.ofZ 0) (Js.ofZ 0)) 2 = "NaN"
  /\ Js.toFixed (Js.ofZ (2 ^ 70)) 2 = "1.1805916207174113e+21".
Proof. vm_compute. repeat split. Qed.

Example floor_values :
  Js.floor (Js.div (Js.ofZ 3050) (Js.ofZ 100)) = Js.ofZ 30
  /\ Js.floor (Js.div (Js.ofZ (-3050)) (Js.ofZ 100)) = Js.ofZ (-31)
  /\ Js.floor (Js.ofZ (-30)) = Js.ofZ (-30).
Proof. vm_compute. repeat split. Qed.

Example string_values :
  Js.padStart "10" 3 = " 10"
  /\ Js.padStart "1234" 3 = "1234"
  /\ Js.padEnd "12" 7 = "12     "
  /\ Js.substring2 "0x1234567890" 0 7 = "0x12345"
  /\ Js.substringFrom "0x1234567890" 8 = "7890"
  /\ Js.substringFrom "ab" (-2) = "ab"
  /\ textOfBigInt (2 ^ 80) = "1.2089258196146292e+24"
  /\ textOfBigInt (2 ^ 60) = "1152921504606847000"
  /\ textOfBigInt (2 ^ 53) = "9007199254740992"
  /\ textOfBigInt 20 = "20".
Proof. vm_compute. repeat split. Qed.

(** ** Block aggregator *)

Lemma lift_ok {A} (r : Res A) (w : World) (a : A) (w' : World) :
  lift r w = (Ok a, w') -> r = Ok a /\ w' = w.
Proof. unfold lift. intros H. inversion H. auto. Qed.

Lemma sumWeights_from (txs : list TxWithEventAndFee) :
  forall acc total,
    fold_left
      (fun total tx => res_bind total (fun t => res_bind (dispatchedWeight tx)
                                                   (fun x => Ok (t + x)%N)))
      txs acc = Ok total ->
    exists start ws,
      acc = Ok start /\ Forall2 hasWeight txs ws /\ total = (start + totalWeight ws)%N.
Proof.
  induction txs as [|tx txs IH]; intros acc total H; cbn [fold_left] in H.
  - exists total, []. repeat split; [assumption | constructor | cbn; lia].
  - destruct (IH _ _ H) as (start & ws & Hacc & Hws & Htotal).
    destruct acc as [t | e]; [| discriminate Hacc]. cbn [res_bind] in Hacc.
    unfold dispatchedWeight in Hacc.
    destruct (dispatchInfo tx) as [di |] eqn:Hdi; [| discriminate Hacc].
    cbn [res_bind] in Hacc. inversion Hacc; subst start.
    exists t, (weight di :: ws). repeat split.
    + constructor; [| assumption]. unfold hasWeight. rewrite Hdi. reflexivity.
    + cbn [totalWeight fold_right]. fold (totalWeight ws). lia.
Qed.

Lemma sumWeights_ok txs total :
  sumWeights txs = Ok total ->
  exists ws, Forall2 hasWeight txs ws /\ total = totalWeight ws.
Proof.
  intros H. destruct (sumWeights_from txs _ _ H) as (start & ws & Hs & Hws & Ht).
  inversion Hs; subst start. exists ws. split; [assumption | lia].
Qed.

Lemma rpc_ok {A} api (r : Request) (answer : Res A) (w : World) (a : A) (w' : World) :
  rpc api r answer w = (Ok a, w') -> answer = Ok a.
Proof. unfold rpc. intros H. inversion H. reflexivity. Qed.

Lemma parAll_ok_each {A B} (task : A -> M B) (l : list A) :
  forall w bs w',
    parAll (map task l) w = (Ok bs, w') ->
    Forall2 (fun a b => exists w0 w1, task a w0 = (Ok b, w1)) l bs.
Proof.
  induction l as [|a l IH]; intros w bs w' H; cbn [map parAll] in H.
  - inversion H. constructor.
  - destruct (task a w) as [ra w1] eqn:Ha.
    destruct (parAll (map task l) w1) as [rl w2] eqn:Hl.
    destruct ra as [b | e]; [| discriminate H].
    destruct rl as [bs' | e]; [| discriminate H].
    cbn in H. inversion H; subst bs w'.
    constructor; [eauto | eapply IH; exact Hl].
Qed.

Lemma getBlockDetailsFrom_ok api host blockHash w d w' :
  getBlockDetailsFrom api host blockHash w = (Ok d, w') ->
  exists time fees total,
    getBlock api blockHash = Ok (block d)
    /\ systemEvents api blockHash = Ok (records d)
    /\ timestampNow api blockHash = Ok time
    /\ toNumber time = Ok (blockTime d)
    /\ Forall2 (fun ext f =>
                  queryInfo api (ext_hex ext) (parentHash (header (block d))) = Ok f)
               (extrinsics (block d)) fees
    /\ txWithEvents d = mapExtrinsics (extrinsics (block d)) (records d) fees
    /\ sumWeights (txWithEvents d) = Ok total
    /\ weightPercentageOf total (maxBlock api) = Ok (weightPercentage d)
    /\ realtime d = None.
Proof.
  unfold getBlockDetailsFrom. intros H.
  bind_ok H. destruct a as [b [recs time]].
  unfold par, rpc in E. cbn in E.
  destruct (getBlock api blockHash) as [b' |]; [| discriminate E].
  destruct (systemEvents api blockHash) as [recs' |]; [| discriminate E].
  destruct (timestampNow api blockHash) as [time' |]; [| discriminate E].
  cbn in E. inversion E; subst b' recs' time'. clear E.
  bind_ok H. destruct a as [fees name].
  unfold par in E.
  destruct (parAll _ w0) as [rf w2] eqn:Efees.
  match type of E with
  | context [let '(rb, w2) := ?m w2 in _] => destruct (m w2) as [rn w3]
  end.
  destruct rf as [fees' | e]; [| discriminate E].
  destruct rn as [name' | e]; [| discriminate E].
  cbn in E. inversion E; subst fees' name' w3. clear E.
  apply parAll_ok_each in Efees.
  bind_ok H. apply lift_ok in E as [Hsum ->].
  bind_ok H. apply lift_ok in E as [Htime ->].
  bind_ok H. apply lift_ok in E as [Hwp ->].
  unfold ret in H. inversion H; subst d w'. cbn.
  exists time, fees, a. repeat split; auto.
  eapply Forall2_impl; [exact Efees |].
  intros ext f (w4 & w5 & Hq). cbn in Hq. eapply rpc_ok. exact Hq.
Qed.

Lemma getBlockDetails_from api host blockHash w d w' :
  getBlockDetails api host blockHash w = (Ok d, w') ->
  api_at api blockHash = Ok tt
  /\ getBlockDetailsFrom api host blockHash
       (elapse (latency api (ReqAt blockHash)) (logRequest (ReqAt blockHash) w))
     = (Ok d, w').
Proof.
  unfold getBlockDetails, bind. unfold rpc at 1.
  destruct (api_at api blockHash) as [[] | e]; [auto | discriminate].
Qed.

Lemma getBlockDetails_ok api host blockHash w d w' :
  getBlockDetails api host blockHash w = (Ok d, w') ->
  exists fees total,
    txWithEvents d = mapExtrinsics (extrinsics (block d)) (records d) fees
    /\ sumWeights (txWithEvents d) = Ok total
    /\ weightPercentageOf total (maxBlock api) = Ok (weightPercentage d)
    /\ realtime d = None.
Proof.
  intros H. apply getBlockDetails_from in H as [_ H].
  destruct (getBlockDetailsFrom_ok _ _ _ _ _ _ H)
    as (time & fees & total & _ & _ & _ & _ & _ & Htxs & Hsum & Hwp & Hrt).
  exists fees, total. auto.
Qed.

Lemma getBlockDetails_fetched api host blockHash w d w' :
  getBlockDetails api host blockHash w = (Ok d, w') ->
  getBlock api blockHash = Ok (block d)
  /\ systemEvents api blockHash = Ok (records d)
  /\ exists t, timestampNow api blockHash = Ok t /\ toNumber t = Ok (blockTime d).
Proof.
  intros H. apply getBlockDetails_from in H as [_ H].
  destruct (getBlockDetailsFrom_ok _ _ _ _ _ _ H)
    as (time & fees & total & Hb & Hrecs & Ht & Hnum & _).
  eauto.
Qed.

Lemma map_extrinsic_mapExtrinsicsFrom exts recs fees :
  forall index, map extrinsic (mapExtrinsicsFrom index exts recs fees) = exts.
Proof.
  induction exts as [|ext exts IH]; intros index; cbn [mapExtrinsicsFrom map].
  - reflexivity.
  - cbn [extrinsic]. rewrite IH. reflexivity.
Qed.

(** C2.  Whenever [getBlockDetails] returns a snapshot, the snapshot holds
    the block and the events the node has for the hash asked; its
    per-extrinsic list has one entry for each extrinsic of that block, in
    order, built from those events and from the fee quotes of the node;
    every entry has a dispatched weight; the maximum block weight is not
    zero; and [weightPercentage] is the number of (sum of these weights *
    10000, integer-divided by the maximum block weight) divided by 100.  A
    block without extrinsics yields an empty list and the percentage 0. *)
Theorem getBlockDetails_weightPercentage api host blockHash w d w' :
  getBlockDetails api host blockHash w = (Ok d, w') ->
  maxBlock api <> 0%N
  /\ getBlock api blockHash = Ok (block d)
  /\ systemEvents api blockHash = Ok (records d)
  /\ (exists fees,
        Forall2 (fun ext f =>
                   queryInfo api (ext_hex ext) (parentHash (header (block d))) = Ok f)
                (extrinsics (block d)) fees
        /\ txWithEvents d = mapExtrinsics (extrinsics (block d)) (records d) fees)
  /\ map extrinsic (txWithEvents d) = extrinsics (block d)
  /\ (exists ws,
        Forall2 hasWeight (txWithEvents d) ws
        /\ length ws = length (extrinsics (block d))
        /\ weightPercentage d
           = Js.div (Js.ofN ((totalWeight ws * 10000) / maxBlock api)) (Js.ofZ 100))
  /\ (extrinsics (block d) = [] ->
      txWithEvents d = [] /\ weightPercentage d = Js.ofZ 0).
Proof.
  intros H. apply getBlockDetails_from in H as [_ H].
  destruct (getBlockDetailsFrom_ok _ _ _ _ _ _ H)
    as (time & fees & total & Hb & Hrecs & _ & _ & Hfees & Htxs & Hsum & Hwp & _).
  unfold weightPercentageOf in Hwp.
  destruct (maxBlock api =? 0)%N eqn:Hmax; [discriminate Hwp |].
  apply N.eqb_neq in Hmax. inversion Hwp as [Hw].
  destruct (sumWeights_ok _ _ Hsum) as (ws & Hws & Htotal).
  assert (Hexts : map extrinsic (txWithEvents d) = extrinsics (block d)).
  { rewrite Htxs. apply map_extrinsic_mapExtrinsicsFrom. }
  split; [assumption |]. split; [assumption |]. split; [assumption |].
  split; [exists fees; auto |]. split; [assumption |]. split.
  - exists ws. split; [assumption |]. split.
    + rewrite <- Hexts, length_map. symmetry. eapply Forall2_length. exact Hws.
    + rewrite Htotal. reflexivity.
  - intros Hnone. rewrite Htxs, Hnone in *. cbn in Hsum. inversion Hsum; subst total.
    split; [reflexivity |].
    rewrite N.mul_0_l, N.Div0.div_0_l. reflexivity.
Qed.

Lemma hasWeight_functional txs :
  forall ws ws',
    Forall2 hasWeight txs ws -> Forall2 hasWeight txs ws' -> ws = ws'.
Proof.
  induction txs as [|tx txs IH]; intros ws ws' H H'; inversion H; inversion H'; subst.
  - reflexivity.
  - f_equal; [unfold hasWeight in *; congruence | apply IH; assumption].
Qed.

(** Block 6, whose three extrinsics weigh 75 251 000 000 of 500 000 000 000:
    15.05 hundredths of a hundred. *)
Lemma getBlockDetails_demo_weight :
  exists d w',
    getBlockDetails demoApi demoHost "0xb6" demoWorld = (Ok d, w')
    /\ extrinsics (block d) = [timestampSet; ethTransact; balancesTransfer]
    /\ map extrinsic (txWithEvents d) = [timestampSet; ethTransact; balancesTransfer]
    /\ Forall2 hasWeight (txWithEvents d) [1000000; 75000000000; 250000000]%N
    /\ weightPercentage d = Js.div (Js.ofZ 1505) (Js.ofZ 100)
    /\ Js.toFixed (weightPercentage d) 2 = "15.05".
Proof.
  destruct (getBlockDetails demoApi demoHost "0xb6" demoWorld) as [r w'] eqn:Hrun.
  assert (Hok : isOk r = true).
  { apply (f_equal (fun p => isOk (fst p))) in Hrun. vm_compute in Hrun.
    symmetry. exact Hrun. }
  destruct r as [d | e]; [| discriminate Hok].
  exists d, w'. split; [reflexivity |].
  destruct (getBlockDetails_weightPercentage demoApi demoHost "0xb6" demoWorld d w' Hrun)
    as (_ & Hb & _ & _ & Hexts & (ws & Hws & _ & Hwp) & _).
  assert (Hblock : extrinsics (block d) = [timestampSet; ethTransact; balancesTransfer]).
  { cbn in Hb. inversion Hb as [Hd]. reflexivity. }
  assert (Hweights : Forall2 hasWeight (txWithEvents d)
                       [1000000; 75000000000; 250000000]%N).
  { apply (f_equal (fun p => option_map txWithEvents
                                (match fst p with Ok x => Some x | Err _ => None end)))
      in Hrun.
    cbn [fst option_map] in Hrun.
    remember (txWithEvents d) as txs eqn:Htxs. clear Htxs.
    vm_compute in Hrun. inversion Hrun as [Htxs].
    repeat (constructor; [reflexivity |]). constructor. }
  rewrite (hasWeight_functional _ _ _ Hws Hweights) in Hwp.
  split; [exact Hblock |]. split; [rewrite Hexts; exact Hblock |].
  split; [exact Hweights |].
  split; [rewrite Hwp; vm_compute; reflexivity |].
  rewrite Hwp. vm_compute. reflexivity.
Defined.

(** ** Identity resolver *)

(** C10.  For an absent or empty account [getAccountIdentity] returns the
    empty string, and for an absent or empty list [getAccountIdentities]
    returns the empty list; in each case the world is left as it was: no
    request is issued and no cache is written. *)
Theorem empty_input_returns_at_once
    (api : Api) (host : Host) (at_hash : option Hash) (w : World) :
  getAccountIdentity api None w = (Ok "", w)
  /\ getAccountIdentity api (Some "") w = (Ok "", w)
  /\ getAccountIdentities api host None at_hash w = (Ok [], w)
  /\ getAccountIdentities api host (Some []) at_hash w = (Ok [], w).
Proof. repeat split. Qed.




Lemma res_mapM_Forall2 {A B} (f : A -> Res B) (l : list A) :
  forall bs, res_mapM f l = Ok bs -> Forall2 (fun a b => f a = Ok b) l bs.
Proof.
  induction l as [|a l IH]; intros bs H; cbn [res_mapM] in H.
  - inversion H. constructor.
  - destruct (f a) as [b | e] eqn:Hfa; [| discriminate H]. cbn [res_bind] in H.
    destruct (res_mapM f l) as [bs' | e]; [| discriminate H]. cbn [res_bind] in H.
    inversion H. constructor; [exact Hfa | apply IH; reflexivity].
Qed.

(** What [storeIdentities] does to a world: only the identity cache
    changes; every index it runs over leaves an entry with the current time
    under the account at that index, and entries already there stay. *)
Lemma storeIdentities_effect (missing : list string)
    (ids : list (option PalletIdentityRegistration)) :
  forall i w,
    fst (storeIdentities missing i ids w) = Ok tt
    /\ now (snd (storeIdentities missing i ids w)) = now w
    /\ requests (snd (storeIdentities missing i ids w)) = requests w
    /\ authorMappingCache (snd (storeIdentities missing i ids w))
       = authorMappingCache w
    /\ console (snd (storeIdentities missing i ids w)) = console w
    /\ (forall k, is_Some (identityCache w !! k) ->
                  is_Some (identityCache (snd (storeIdentities missing i ids w)) !! k))
    /\ (forall k, (exists e, identityCache w !! k = Some e /\ id_lastUpdate e = now w) ->
                  exists e, identityCache (snd (storeIdentities missing i ids w)) !! k
                            = Some e /\ id_lastUpdate e = now w)
    /\ (forall j, (i <= j < i + length ids)%nat ->
                  exists e, identityCache (snd (storeIdentities missing i ids w))
                              !! nth j missing "undefined" = Some e
                            /\ id_lastUpdate e = now w).
Proof.
  induction ids as [|identityData ids IH]; intros i w.
  - cbn. repeat split; auto. intros j Hj. lia.
  - cbn [storeIdentities]. unfold bind. cbn [storeIdentity].
    set (w1 := setIdentityCache _ w).
    destruct (IH (S i) w1) as (Hok & Hnow & Hreq & Ham & Hcon & Hkeep & Hfresh & Hnew).
    assert (Hhere : exists e, identityCache w1 !! nth i missing "undefined" = Some e
                              /\ id_lastUpdate e = now w1).
    { eexists. split; [apply lookup_insert_eq | reflexivity]. }
    assert (Hw1 : now w1 = now w) by reflexivity.
    rewrite Hw1 in *.
    repeat split; auto.
    + intros k Hk. apply Hkeep. subst w1. cbn.
      destruct (decide (nth i missing "undefined" = k)) as [-> | Hne].
      * rewrite lookup_insert_eq. eauto.
      * rewrite lookup_insert_ne by assumption. exact Hk.
    + intros k (e & He & Hage). apply Hfresh.
      subst w1. cbn.
      destruct (decide (nth i missing "undefined" = k)) as [-> | Hne].
      * rewrite lookup_insert_eq. eauto.
      * rewrite lookup_insert_ne by assumption. eauto.
    + intros j Hj. cbn [length] in Hj.
      destruct (decide (j = i)) as [-> | Hne].
      * apply Hfresh. exact Hhere.
      * apply Hnew. lia.
Qed.

(** The run of [getAccountIdentities] on a non-empty list, case by case. *)
Lemma getAccountIdentities_run (api : Api) (host : Host) (a : string)
    (rest : list string) (at_hash : option Hash) (w : World) :
  let accounts := a :: rest in
  let missing := missingAccounts w accounts in
  let request := ReqQueryStorageAt (map (getIdentityKey host) missing) at_hash in
  let w1 := elapse (latency api request) (logRequest request w) in
  getAccountIdentities api host (Some accounts) at_hash w
  = match missing with
    | [] => (res_mapM (accountDisplay w) accounts, w)
    | _ :: _ =>
        match queryStorageAt api (map (getIdentityKey host) missing) at_hash with
        | Ok ids =>
            (res_mapM (accountDisplay (snd (storeIdentities missing 0 ids w1))) accounts,
             snd (storeIdentities missing 0 ids w1))
        | Err e => (Err e, w1)
        end
    end.
Proof.
  cbv zeta. unfold getAccountIdentities, bind. cbn beta iota.
  destruct (missingAccounts w (a :: rest)) as [|m ms]; [reflexivity |].
  cbn [length Nat.ltb Nat.leb]. unfold rpc.
  destruct (queryStorageAt api _ at_hash) as [ids | e]; [| reflexivity].
  match goal with
  | |- context [storeIdentities ?l 0 ids ?w1] =>
      destruct (storeIdentities_effect l ids 0 w1) as (Hok & _);
      destruct (storeIdentities l 0 ids w1) as [r w2]
  end.
  cbn in Hok. subst r. reflexivity.
Qed.




(** C4 (as the code has it).  When the author-mapping entry of [author] is
    missing or stale and the lookup finds no mapped account,
    [getAuthorIdentity] returns the empty string: it records the absence in
    the author-mapping cache, issues no identity request and leaves the
    identity cache alone. *)
Theorem getAuthorIdentity_unmapped (api : Api) (host : Host) (author : string)
    (w : World) :
  authorStale w author = true ->
  mappingWithDeposit api author = Ok None ->
  exists w',
    getAuthorIdentity api host author w = (Ok "", w')
    /\ requests w' = (requests w ++ [ReqMappingWithDeposit author])%list
    /\ identityCache w' = identityCache w
    /\ authorMappingCache w' !! author
       = Some {| account := None; am_lastUpdate := now w' |}.
Proof.
  intros Hstale Hnone. unfold getAuthorIdentity, bind. rewrite Hstale.
  unfold rpc, storeAuthor. rewrite Hnone. cbn. rewrite lookup_insert_eq. cbn.
  eexists. split; [reflexivity |]. cbn. rewrite lookup_insert_eq. auto.
Qed.

(** The author of block 9, on empty caches. *)
Lemma getAuthorIdentity_unmapped_demo :
  exists w',
    getAuthorIdentity demoApi demoHost "0xauthor2" demoWorld = (Ok "", w')
    /\ requests w' = (requests demoWorld ++ [ReqMappingWithDeposit "0xauthor2"])%list
    /\ identityCache w' = identityCache demoWorld
    /\ authorMappingCache w' !! "0xauthor2"
       = Some {| account := None; am_lastUpdate := now w' |}.
Proof.
  apply (getAuthorIdentity_unmapped demoApi demoHost "0xauthor2" demoWorld);
    reflexivity.
Defined.

(** C4 as stated fails: for the author of block 9, whose lookup finds no
    mapped account, the result is the empty string, which is not the text of
    an all-zero account identifier (the placeholder of [getBlockDetails] for
    a block without author is). *)
Lemma getAuthorIdentity_unmapped_is_not_zero :
  mappingWithDeposit demoApi "0xauthor2" = Ok None
  /\ fst (getAuthorIdentity demoApi demoHost "0xauthor2" demoWorld) = Ok ""
  /\ isZeroAccount "" = false
  /\ isZeroAccount zeroAuthor = true.
Proof. repeat split. Qed.

(** ** Requests and failures *)

Lemma answered_pure {A} api (f : World -> Res A) :
  answeredOrFails api (fun w => (f w, w)).
Proof. intros w. exists []. cbn. rewrite app_nil_r. auto. Qed.

Lemma answered_ret {A} api (a : A) : answeredOrFails api (ret a).
Proof. apply (answered_pure api (fun _ => Ok a)). Qed.

Lemma answered_lift {A} api (r : Res A) : answeredOrFails api (lift r).
Proof. apply (answered_pure api (fun _ => r)). Qed.

Lemma answered_rpc {A} api (r : Request) (answer : Res A) :
  refused api r = negb (isOk answer) ->
  answeredOrFails api (rpc api r answer).
Proof.
  intros Hr w. exists [r]. cbn. split; [reflexivity |].
  intros Hok. constructor; [| constructor]. rewrite Hr, Hok. reflexivity.
Qed.

Lemma answered_storeIdentity api a i : answeredOrFails api (storeIdentity a i).
Proof. intros w. exists []. cbn. rewrite app_nil_r. auto. Qed.

Lemma answered_storeAuthor api a i : answeredOrFails api (storeAuthor a i).
Proof. intros w. exists []. cbn. rewrite app_nil_r. auto. Qed.

Lemma answered_bind {A B} api (m : M A) (k : A -> M B) :
  answeredOrFails api m -> (forall a, answeredOrFails api (k a)) ->
  answeredOrFails api (bind m k).
Proof.
  intros Hm Hk w. unfold bind.
  destruct (Hm w) as (rs1 & Hreq1 & Hok1).
  destruct (m w) as [[a | e] w1]; cbn in *.
  - destruct (Hk a w1) as (rs2 & Hreq2 & Hok2).
    exists (rs1 ++ rs2)%list. rewrite Hreq2, Hreq1, app_assoc.
    split; [reflexivity |]. intros Hok. apply Forall_app. auto.
  - exists rs1. split; [assumption | discriminate].
Qed.

Lemma both_ok {A B} (ra : Res A) (rb : Res B) :
  isOk (both ra rb) = true -> isOk ra = true /\ isOk rb = true.
Proof. destruct ra, rb; cbn; auto. Qed.

Lemma answered_par {A B} api (a : M A) (b : M B) :
  answeredOrFails api a -> answeredOrFails api b -> answeredOrFails api (par a b).
Proof.
  intros Ha Hb w. unfold par.
  destruct (Ha w) as (rs1 & Hreq1 & Hok1).
  destruct (a w) as [ra w1]; cbn in *.
  destruct (Hb w1) as (rs2 & Hreq2 & Hok2).
  destruct (b w1) as [rb w2]; cbn in *.
  exists (rs1 ++ rs2)%list. rewrite Hreq2, Hreq1, app_assoc.
  split; [reflexivity |]. intros Hok. apply both_ok in Hok as [Hoa Hob].
  apply Forall_app. auto.
Qed.

Lemma answered_parAll {A} api (l : list (M A)) :
  (forall m, In m l -> answeredOrFails api m) -> answeredOrFails api (parAll l).
Proof.
  induction l as [|a l IH]; intros Hl; cbn [parAll].
  - apply answered_ret.
  - intros w.
    destruct (Hl a (or_introl eq_refl) w) as (rs1 & Hreq1 & Hok1).
    destruct (a w) as [ra w1]; cbn in *.
    destruct (IH (fun m Hin => Hl m (or_intror Hin)) w1) as (rs2 & Hreq2 & Hok2).
    destruct (parAll l w1) as [rl w2]; cbn in *.
    exists (rs1 ++ rs2)%list. rewrite Hreq2, Hreq1, app_assoc.
    split; [reflexivity |]. intros Hok.
    assert (Hboth : isOk (both ra rl) = true) by (destruct (both ra rl); auto).
    apply both_ok in Hboth as [Hoa Hol]. apply Forall_app. auto.
Qed.

Lemma answered_getAccountIdentity api account :
  answeredOrFails api (getAccountIdentity api account).
Proof.
  unfold getAccountIdentity. destruct account as [[|c rest] |];
    try apply answered_ret.
  apply answered_bind; [apply (answered_pure api (fun w => Ok _)) |].
  intros stale. apply answered_bind.
  - destruct stale; [| apply answered_ret].
    apply answered_bind; [apply answered_rpc; reflexivity |].
    intros identityData. apply answered_storeIdentity.
  - intros _ w. exists []. rewrite app_nil_r.
    destruct (identityCache w !! String c rest) as [e |]; [destruct (identity e) |];
      cbn; auto.
Qed.

Lemma answered_getAuthorIdentity api host author :
  answeredOrFails api (getAuthorIdentity api host author).
Proof.
  unfold getAuthorIdentity.
  apply answered_bind; [apply (answered_pure api (fun w => Ok _)) |].
  intros stale. apply answered_bind.
  - destruct stale; [| apply answered_ret].
    apply answered_bind; [apply answered_rpc; reflexivity |].
    intros mappingData. apply answered_storeAuthor.
  - intros _. apply answered_bind.
    + intros w. exists []. rewrite app_nil_r.
      destruct (authorMappingCache w !! author); cbn; auto.
    + intros acc. apply answered_getAccountIdentity.
Qed.

Lemma answered_getBlockDetails api host blockHash :
  answeredOrFails api (getBlockDetails api host blockHash).
Proof.
  unfold getBlockDetails.
  apply answered_bind; [apply answered_rpc; reflexivity |]. intros _.
  apply answered_bind.
  { apply answered_par; [apply answered_rpc; reflexivity |].
    apply answered_par; apply answered_rpc; reflexivity. }
  intros [b [recs time]].
  apply answered_bind.
  { apply answered_par.
    - apply answered_parAll. intros m Hin. apply in_map_iff in Hin as (ext & <- & _).
      apply answered_rpc. reflexivity.
    - destruct (authorIdOf b) as [[|c rest] |]; try apply answered_ret.
      apply answered_getAuthorIdentity. }
  intros [fees name].
  apply answered_bind; [apply answered_lift |]. intros blockWeight.
  apply answered_bind; [apply answered_lift |]. intros t.
  apply answered_bind; [apply answered_lift |]. intros wp.
  apply answered_ret.
Qed.

(** C3 (as the code has it).  [getBlockDetails] only adds requests to the
    log, and if any request it issued (the block, its events, its
    timestamp, a fee quote, the author mapping, the identity) was refused,
    it returns an error and no snapshot at all. *)
Theorem getBlockDetails_all_or_nothing (api : Api) (host : Host) (blockHash : Hash)
    (w : World) (r : Res BlockDetails) (w' : World) :
  getBlockDetails api host blockHash w = (r, w') ->
  exists rs,
    requests w' = (requests w ++ rs)%list
    /\ (Exists (fun q => refused api q = true) rs -> exists e, r = Err e).
Proof.
  intros Hrun.
  destruct (answered_getBlockDetails api host blockHash w) as (rs & Hreq & Hok).
  rewrite Hrun in Hreq, Hok. cbn in Hreq, Hok.
  exists rs. split; [assumption |].
  intros Hex. destruct r as [d | e]; [| exists e; reflexivity].
  specialize (Hok eq_refl). apply Exists_exists in Hex as (q & Hin & Hq).
  rewrite Forall_forall in Hok. specialize (Hok q Hin). congruence.
Qed.

(** Block 8, one of whose fee quotes is refused. *)
Lemma getBlockDetails_failure_demo :
  exists rs,
    requests (snd (getBlockDetails demoApi demoHost "0xb8" demoWorld))
      = (requests demoWorld ++ rs)%list
    /\ (Exists (fun q => refused demoApi q = true) rs ->
        exists e, fst (getBlockDetails demoApi demoHost "0xb8" demoWorld) = Err e).
Proof.
  apply (getBlockDetails_all_or_nothing demoApi demoHost "0xb8" demoWorld).
  apply surjective_pairing.
Defined.

(** C3 as stated fails: the aggregation of block 8 fails on a refused fee
    quote, yet the author mapping and the identity resolved on the way are
    in the caches afterwards, which were empty before. *)
Lemma failed_aggregation_leaves_cache_entries :
  refused demoApi (ReqQueryInfo "0xbad" "0xb7") = true
  /\ fst (getBlockDetails demoApi demoHost "0xb8" demoWorld) = Err "fee quote refused"
  /\ requests (snd (getBlockDetails demoApi demoHost "0xb8" demoWorld))
     = [ReqAt "0xb8"; ReqGetBlock "0xb8"; ReqEvents "0xb8"; ReqTimestamp "0xb8";
        ReqQueryInfo "0x04" "0xb7"; ReqQueryInfo "0xbad" "0xb7";
        ReqMappingWithDeposit "0xauthor1"; ReqIdentityOf "0xacc1"]
  /\ authorMappingCache demoWorld !! "0xauthor1" = None
  /\ identityCache demoWorld !! "0xacc1" = None
  /\ authorMappingCache (snd (getBlockDetails demoApi demoHost "0xb8" demoWorld))
       !! "0xauthor1"
     = Some {| account := Some "0xacc1"; am_lastUpdate := now demoWorld + 35 |}
  /\ identityCache (snd (getBlockDetails demoApi demoHost "0xb8" demoWorld))
       !! "0xacc1"
     = Some {| identity := Some alice; id_lastUpdate := now demoWorld + 40 |}.
Proof. vm_compute. repeat split. Qed.


(** ** The console *)

Lemma console_pure {A} (f : World -> Res A) : keepsConsole (fun w => (f w, w)).
Proof. intros w. reflexivity. Qed.

Lemma console_rpc {A} api (r : Request) (answer : Res A) :
  keepsConsole (rpc api r answer).
Proof. intros w. reflexivity. Qed.

Lemma console_storeIdentity a i : keepsConsole (storeIdentity a i).
Proof. intros w. reflexivity. Qed.

Lemma console_storeAuthor a i : keepsConsole (storeAuthor a i).
Proof. intros w. reflexivity. Qed.

Lemma console_bind {A B} (m : M A) (k : A -> M B) :
  keepsConsole m -> (forall a, keepsConsole (k a)) -> keepsConsole (bind m k).
Proof.
  intros Hm Hk w. unfold bind. specialize (Hm w).
  destruct (m w) as [[a | e] w1]; cbn in *; [| assumption].
  rewrite (Hk a w1). assumption.
Qed.

Lemma console_par {A B} (a : M A) (b : M B) :
  keepsConsole a -> keepsConsole b -> keepsConsole (par a b).
Proof.
  intros Ha Hb w. unfold par. specialize (Ha w).
  destruct (a w) as [ra w1]; cbn in *.
  specialize (Hb w1). destruct (b w1) as [rb w2]; cbn in *. congruence.
Qed.

Lemma console_parAll {A} (l : list (M A)) :
  (forall m, In m l -> keepsConsole m) -> keepsConsole (parAll l).
Proof.
  induction l as [|a l IH]; intros Hl; cbn [parAll];
    [apply (console_pure (fun _ => Ok [])) |].
  intros w. pose proof (Hl a (or_introl eq_refl) w) as Ha.
  destruct (a w) as [ra w1]; cbn in *.
  pose proof (IH (fun m Hin => Hl m (or_intror Hin)) w1) as Hrest.
  destruct (parAll l w1) as [rl w2]; cbn in *. congruence.
Qed.

Lemma console_getAccountIdentity api account :
  keepsConsole (getAccountIdentity api account).
Proof.
  unfold getAccountIdentity. destruct account as [[|c rest] |];
    try apply (console_pure (fun _ => Ok "")).
  apply console_bind; [apply (console_pure (fun w => Ok _)) |].
  intros stale. apply console_bind.
  - destruct stale; [| apply (console_pure (fun _ => Ok tt))].
    apply console_bind; [apply console_rpc |]. intros i. apply console_storeIdentity.
  - intros _ w.
    destruct (identityCache w !! String c rest) as [e |]; [destruct (identity e) |];
      reflexivity.
Qed.

Lemma console_getAuthorIdentity api host author :
  keepsConsole (getAuthorIdentity api host author).
Proof.
  unfold getAuthorIdentity.
  apply console_bind; [apply (console_pure (fun w => Ok _)) |].
  intros stale. apply console_bind.
  - destruct stale; [| apply (console_pure (fun _ => Ok tt))].
    apply console_bind; [apply console_rpc |]. intros m. apply console_storeAuthor.
  - intros _. apply console_bind.
    + intros w. destruct (authorMappingCache w !! author); reflexivity.
    + intros acc. apply console_getAccountIdentity.
Qed.

Lemma console_getBlockDetailsFrom api host blockHash :
  keepsConsole (getBlockDetailsFrom api host blockHash).
Proof.
  unfold getBlockDetailsFrom.
  apply console_bind.
  { apply console_par; [apply console_rpc |]. apply console_par; apply console_rpc. }
  intros [b [recs time]].
  apply console_bind.
  { apply console_par.
    - apply console_parAll. intros m Hin. apply in_map_iff in Hin as (ext & <- & _).
      apply console_rpc.
    - destruct (authorIdOf b) as [[|c rest] |];
        try apply (console_pure (fun _ => Ok zeroAuthor)).
      apply console_getAuthorIdentity. }
  intros [fees name].
  apply console_bind; [apply (console_pure (fun _ => _)) |]. intros blockWeight.
  apply console_bind; [apply (console_pure (fun _ => _)) |]. intros t.
  apply console_bind; [apply (console_pure (fun _ => _)) |]. intros wp.
  apply (console_pure (fun _ => Ok _)).
Qed.

Lemma console_getBlockDetails api host blockHash :
  keepsConsole (getBlockDetails api host blockHash).
Proof.
  unfold getBlockDetails. apply console_bind; [apply console_rpc |].
  intros _. apply console_getBlockDetailsFrom.
Qed.

Lemma console_blockTask api host n : keepsConsole (blockTask api host n).
Proof.
  unfold blockTask. apply console_bind; [apply console_rpc |].
  intros h. apply console_getBlockDetails.
Qed.

(** ** The answers of a node that serves *)

Lemma getAccountIdentity_total api account :
  (forall a, isOk (identityOf api a) = true) ->
  forall w, isOk (fst (getAccountIdentity api account w)) = true.
Proof.
  intros Hserve w. destruct account as [[|c rest] |]; try reflexivity.
  unfold getAccountIdentity, bind.
  destruct (identityStale w (String c rest)) eqn:Hstale.
  - unfold rpc. specialize (Hserve (String c rest)).
    destruct (identityOf api (String c rest)) as [i | e]; [| discriminate Hserve].
    cbn. rewrite lookup_insert_eq. cbn. destruct i; reflexivity.
  - unfold ret. unfold identityStale in Hstale.
    destruct (identityCache w !! String c rest) as [e |]; [| discriminate Hstale].
    destruct (identity e); reflexivity.
Qed.

Lemma getAuthorIdentity_total api host author :
  resolverServes api ->
  forall w, isOk (fst (getAuthorIdentity api host author w)) = true.
Proof.
  intros Hserve w. unfold getAuthorIdentity, bind.
  destruct (authorStale w author) eqn:Hstale.
  - unfold rpc. destruct (Hserve author) as [Hmap _].
    destruct (mappingWithDeposit api author) as [m | e]; [| discriminate Hmap].
    cbn. rewrite lookup_insert_eq. cbn.
    apply getAccountIdentity_total. intros a. apply Hserve.
  - unfold ret. unfold authorStale in Hstale.
    destruct (authorMappingCache w !! author) as [e |]; [| discriminate Hstale].
    apply getAccountIdentity_total. intros a. apply Hserve.
Qed.

Lemma parAll_rpc_total {A X} api (req : X -> Request) (ans : X -> Res A)
    (xs : list X) :
  List.Forall (fun x => isOk (ans x) = true) xs ->
  forall w, isOk (fst (parAll (map (fun x => rpc api (req x) (ans x)) xs) w)) = true.
Proof.
  induction 1 as [| x xs Hx _ IH]; intros w; cbn [map parAll]; [reflexivity |].
  unfold rpc at 1.
  specialize (IH (elapse (latency api (req x)) (logRequest (req x) w))).
  destruct (parAll _ _) as [[l | e] w2]; [| discriminate IH].
  destruct (ans x) as [a | e]; [reflexivity | discriminate Hx].
Qed.

Lemma dispatched_any_fees exts recs fees fees' :
  forall index,
    map dispatchInfo (mapExtrinsicsFrom index exts recs fees)
    = map dispatchInfo (mapExtrinsicsFrom index exts recs fees').
Proof.
  induction exts as [|ext exts IH]; intros index; cbn [mapExtrinsicsFrom map];
    [reflexivity |].
  cbn [dispatchInfo]. rewrite (IH (S index)). reflexivity.
Qed.

Lemma sumWeights_total_from (txs : list TxWithEventAndFee) :
  forallb (fun o => match o with Some _ => true | None => false end)
          (map dispatchInfo txs) = true ->
  forall acc : N,
    isOk (fold_left
            (fun total tx => res_bind total (fun t => res_bind (dispatchedWeight tx)
                                                         (fun x => Ok (t + x)%N)))
            txs (Ok acc)) = true.
Proof.
  induction txs as [|tx txs IH]; intros Hall acc; cbn [fold_left]; [reflexivity |].
  cbn [map forallb] in Hall. apply andb_prop in Hall as [Htx Hrest].
  unfold dispatchedWeight at 2. destruct (dispatchInfo tx) as [di |];
    [| discriminate Htx].
  cbn [res_bind]. apply IH. exact Hrest.
Qed.

Lemma sumWeights_total b recs fees :
  allDispatched b recs = true ->
  isOk (sumWeights (mapExtrinsics (extrinsics b) recs fees)) = true.
Proof.
  intros Hall. unfold sumWeights. apply sumWeights_total_from.
  unfold mapExtrinsics. rewrite (dispatched_any_fees _ _ fees []). exact Hall.
Qed.

Lemma getBlockDetails_total api host h b recs t :
  maxBlock api <> 0%N ->
  resolverServes api ->
  api_at api h = Ok tt ->
  getBlock api h = Ok b ->
  systemEvents api h = Ok recs ->
  timestampNow api h = Ok t ->
  (t < 2 ^ 53)%N ->
  List.Forall (fun ext => isOk (queryInfo api (ext_hex ext) (parentHash (header b)))
                          = true) (extrinsics b) ->
  allDispatched b recs = true ->
  forall w, isOk (fst (getBlockDetails api host h w)) = true.
Proof.
  intros Hmax Hserve Hat Hb Hrecs Ht Hlt Hfees Hdisp w.
  unfold getBlockDetails, bind. unfold rpc at 1. rewrite Hat.
  unfold getBlockDetailsFrom, bind.
  unfold par at 1. unfold rpc at 1. rewrite Hb.
  unfold par at 1. unfold rpc at 1 2. rewrite Hrecs, Ht. cbn [both fst snd].
  set (w2 := elapse _ (logRequest (ReqTimestamp h) _)).
  unfold par.
  pose proof (parAll_rpc_total api
                (fun ext => ReqQueryInfo (ext_hex ext) (parentHash (header b)))
                (fun ext => queryInfo api (ext_hex ext) (parentHash (header b)))
                (extrinsics b) Hfees w2) as Hq.
  destruct (parAll _ w2) as [[fees | e] w3]; [| discriminate Hq].
  assert (Hname : isOk (fst ((match authorIdOf b with
                              | Some (String _ _ as a) => getAuthorIdentity api host a
                              | _ => ret zeroAuthor
                              end) w3)) = true).
  { destruct (authorIdOf b) as [[|c rest] |]; try reflexivity.
    apply getAuthorIdentity_total. exact Hserve. }
  match type of Hname with
  | isOk (fst (?m w3)) = true =>
      destruct (m w3) as [[name | e] w4]; [| discriminate Hname]
  end.
  cbn [both]. unfold lift.
  pose proof (sumWeights_total b recs fees Hdisp) as Hsum.
  destruct (sumWeights _) as [total | e]; [| discriminate Hsum].
  unfold toNumber. apply N.ltb_lt in Hlt. rewrite Hlt.
  unfold weightPercentageOf. apply N.eqb_neq in Hmax. rewrite Hmax.
  reflexivity.
Qed.

Lemma blockTask_ok api host n w d w' :
  blockTask api host n w = (Ok d, w') ->
  exists h, getBlockHash api n = Ok h /\ getBlock api h = Ok (block d).
Proof.
  unfold blockTask, bind. unfold rpc at 1.
  destruct (getBlockHash api n) as [h | e]; [| discriminate].
  intros H. exists h. split; [reflexivity |].
  apply (getBlockDetails_fetched _ _ _ _ _ _ H).
Qed.

Lemma blockTask_total api host n :
  maxBlock api <> 0%N -> resolverServes api -> nodeServes api n ->
  forall w, exists d w',
    blockTask api host n w = (Ok d, w') /\ blockNumberOf d = n /\ heldBy api d.
Proof.
  intros Hmax Hserve (h & b & recs & t & Hh & Hat & Hb & Hn & Hrecs & Ht & Hlt
                      & Hfees & Hdisp) w.
  assert (Hok : isOk (fst (blockTask api host n w)) = true).
  { unfold blockTask, bind. unfold rpc at 1. rewrite Hh.
    eapply getBlockDetails_total; eassumption. }
  destruct (blockTask api host n w) as [[d | e] w'] eqn:Hrun; [| discriminate Hok].
  exists d, w'. split; [reflexivity |].
  destruct (blockTask_ok _ _ _ _ _ _ Hrun) as (h' & Hh' & Hb').
  rewrite Hh in Hh'. inversion Hh'; subst h'. rewrite Hb in Hb'.
  inversion Hb' as [Hblock].
  assert (Hnum : blockNumberOf d = n).
  { unfold blockNumberOf. rewrite <- Hblock. exact Hn. }
  split; [exact Hnum |]. exists h. unfold heldBy. rewrite Hnum, <- Hblock. auto.
Qed.

(** ** Range walker *)

Lemma startTasks_spec budget i conc current upto :
  (Z.to_nat (upto - current + 1) <= budget)%nat ->
  startTasks budget i conc current upto =
    (seqZ current (Z.max 0 (Z.min (conc - i) (upto - current + 1))),
     current + Z.max 0 (Z.min (conc - i) (upto - current + 1))).
Proof.
  revert i current.
  induction budget as [|b IH]; intros i current Hb; cbn [startTasks].
  - assert (Hm : Z.max 0 (Z.min (conc - i) (upto - current + 1)) = 0) by lia.
    rewrite Hm, seqZ_nil by lia. f_equal. lia.
  - destruct (i <? conc) eqn:Hi; destruct (current <=? upto) eqn:Hc; cbn [andb];
      try (assert (Hm : Z.max 0 (Z.min (conc - i) (upto - current + 1)) = 0) by lia;
           rewrite Hm, seqZ_nil by lia; f_equal; lia).
    rewrite IH by lia.
    assert (Hm : Z.max 0 (Z.min (conc - i) (upto - current + 1)) =
                 Z.succ (Z.max 0 (Z.min (conc - (i + 1)) (upto - (current + 1) + 1))))
      by lia.
    rewrite Hm, (seqZ_cons current), Z.pred_succ by lia.
    replace (Z.succ current) with (current + 1) by lia.
    f_equal. lia.
Qed.

Lemma parAll_tasks {A B} (task : A -> M B) (P : A -> B -> Prop) (l : list A) :
  (forall a w, In a l -> exists b w', task a w = (Ok b, w') /\ P a b) ->
  forall w, exists bs w', parAll (map task l) w = (Ok bs, w') /\ Forall2 P l bs.
Proof.
  induction l as [|a l IH]; intros Hall w.
  - exists [], w. split; [reflexivity | constructor].
  - destruct (Hall a w (or_introl eq_refl)) as (b & w1 & Hb & Pb).
    destruct (IH (fun a' w' Hin => Hall a' w' (or_intror Hin)) w1)
      as (bs & w2 & Hbs & Pbs).
    exists (b :: bs), w2. cbn [map parAll]. rewrite Hb, Hbs. cbn.
    split; [reflexivity | constructor; assumption].
Qed.

Lemma deliverEach_all callBack :
  (forall d w, exists w', callBack d w = (Ok tt, w')) ->
  forall l calls w, exists w', deliverEach callBack l calls w = (Ok tt, w', (calls ++ l)%list).
Proof.
  intros Hcb. induction l as [|d l IH]; intros calls w; cbn [deliverEach].
  - exists w. rewrite app_nil_r. reflexivity.
  - destruct (Hcb d w) as (w1 & Hd). rewrite Hd.
    destruct (IH (calls ++ [d])%list w1) as (w2 & Hl).
    exists w2. rewrite Hl, <- app_assoc. reflexivity.
Qed.

Lemma Forall2_numbers (Q : BlockDetails -> Prop) (ns : list Z)
    (ds : list BlockDetails) :
  Forall2 (fun n d => blockNumberOf d = n /\ Q d) ns ds ->
  map blockNumberOf ds = ns /\ List.Forall Q ds.
Proof.
  induction 1 as [| n d ns ds [Hn Hq] _ [IHn IHq]]; cbn;
    [split; [reflexivity | constructor] |].
  split; [congruence | constructor; assumption].
Qed.

Lemma seqZ_increasing m len : StronglySorted Z.lt (seqZ m len).
Proof.
  destruct (Z.le_gt_cases len 0) as [Hle | Hgt].
  - rewrite seqZ_nil by lia. constructor.
  - rewrite <- (Z2Nat.id len) by lia. generalize (Z.to_nat len) as k. clear.
    intros k. revert m. induction k as [|k IH]; intros m.
    + rewrite seqZ_nil by lia. constructor.
    + rewrite seqZ_cons by lia. constructor.
      * replace (Z.pred (Z.of_nat (S k))) with (Z.of_nat k) by lia. apply IH.
      * apply Forall_forall. intros x Hx. apply elem_of_seqZ in Hx. lia.
Qed.

Section Walk.
Variables (api : Api) (host : Host) (callBack : BlockDetails -> M unit).
Variables (lo upto conc : Z) (Q : BlockDetails -> Prop).

Hypothesis conc_pos : 1 <= conc.
Hypothesis tasks_succeed :
  forall n w, lo <= n <= upto ->
    exists d w', blockTask api host n w = (Ok d, w') /\ blockNumberOf d = n /\ Q d.
Hypothesis callBack_returns :
  forall d w, exists w', callBack d w = (Ok tt, w').

Lemma exploreLoop_delivers (k : nat) :
  forall current calls w,
    lo <= current <= upto + 1 ->
    (Z.to_nat (upto - current + 1) <= k)%nat ->
    exists w' ds,
      (forall fuel, (k < fuel)%nat ->
         exploreLoop fuel api host conc upto callBack current calls w
           = Some (Ok tt, w', (calls ++ ds)%list))
      /\ map blockNumberOf ds = seqZ current (upto - current + 1)
      /\ List.Forall Q ds.
Proof.
  induction k as [|k IH]; intros current calls w Hcur Hk.
  - exists w, []. split; [| split; [| constructor]].
    + intros [|fuel] Hfuel; [lia |]. cbn [exploreLoop].
      replace (current <=? upto) with false by lia.
      rewrite app_nil_r. reflexivity.
    + rewrite seqZ_nil by lia. reflexivity.
  - destruct (current <=? upto) eqn:Hc.
    + apply Z.leb_le in Hc.
      set (m := Z.max 0 (Z.min (conc - 0) (upto - current + 1))).
      assert (Hm : 1 <= m <= upto - current + 1) by lia.
      destruct (parAll_tasks (blockTask api host)
                  (fun n d => blockNumberOf d = n /\ Q d)
                  (seqZ current m)) with (w := w) as (ds1 & w1 & Hpar & Hnums).
      { intros n w0 Hin. apply tasks_succeed.
        rewrite <- list_elem_of_In, elem_of_seqZ in Hin. lia. }
      apply Forall2_numbers in Hnums as [Hnums Hq1].
      destruct (deliverEach_all callBack callBack_returns ds1 calls w1)
        as (w2 & Hdel).
      destruct (IH (current + m) (calls ++ ds1)%list w2)
        as (w3 & ds2 & Hloop & Hrest & Hq2); [lia | lia |].
      exists w3, (ds1 ++ ds2)%list. split; [| split].
      * intros [|fuel] Hfuel; [lia |]. cbn [exploreLoop].
        replace (current <=? upto) with true by lia.
        rewrite startTasks_spec by lia. fold m.
        rewrite Hpar, Hdel, Hloop by lia. rewrite <- app_assoc. reflexivity.
      * rewrite map_app, Hrest, Hnums.
        replace (upto - current + 1) with (m + (upto - (current + m) + 1)) by lia.
        rewrite (seqZ_app current m) by lia. reflexivity.
      * apply List.Forall_app. split; assumption.
    + apply Z.leb_gt in Hc. exists w, []. split; [| split; [| constructor]].
      * intros [|fuel] Hfuel; [lia |]. cbn [exploreLoop].
        replace (current <=? upto) with false by lia.
        rewrite app_nil_r. reflexivity.
      * rewrite seqZ_nil by lia. reflexivity.
Qed.
End Walk.

Lemma deliverEach_console callBack (label : BlockDetails -> string) :
  (forall d w0, console (snd (callBack d w0)) = (console w0 ++ [label d])%list) ->
  forall l calls w r w' calls',
    deliverEach callBack l calls w = (r, w', calls') ->
    exists ds,
      calls' = (calls ++ ds)%list /\ console w' = (console w ++ map label ds)%list.
Proof.
  intros Hcb. induction l as [|d l IH]; intros calls w r w' calls' H;
    cbn [deliverEach] in H.
  - inversion H; subst. exists []. rewrite !app_nil_r. auto.
  - pose proof (Hcb d w) as Hd. destruct (callBack d w) as [[u | e] w1]; cbn in Hd.
    + destruct (IH _ _ _ _ _ H) as (ds & Hcalls & Hcon).
      exists (d :: ds). rewrite Hcalls, Hcon, Hd, <- !app_assoc. auto.
    + inversion H; subst. exists [d]. auto.
Qed.

Lemma exploreLoop_console api host conc upto callBack
    (label : BlockDetails -> string) :
  (forall d w0, console (snd (callBack d w0)) = (console w0 ++ [label d])%list) ->
  forall fuel current calls w r w' calls',
    exploreLoop fuel api host conc upto callBack current calls w
    = Some (r, w', calls') ->
    exists ds,
      calls' = (calls ++ ds)%list /\ console w' = (console w ++ map label ds)%list.
Proof.
  intros Hcb. induction fuel as [|fuel IH]; intros current calls w r w' calls' H;
    [discriminate H |].
  cbn [exploreLoop] in H. destruct (current <=? upto).
  - destruct (startTasks _ 0 conc current upto) as [ns current'].
    pose proof (console_parAll (map (blockTask api host) ns)) as Hpar.
    specialize (Hpar (fun m Hin =>
                        match proj1 (in_map_iff _ _ _) Hin with
                        | ex_intro _ n (conj Hm _) =>
                            eq_ind _ keepsConsole (console_blockTask api host n) _ Hm
                        end) w).
    destruct (parAll (map (blockTask api host) ns) w) as [[ds1 | e] w1];
      cbn [snd] in Hpar.
    + destruct (deliverEach callBack ds1 calls w1) as [[r2 w2] calls2] eqn:Hdel.
      destruct (deliverEach_console callBack label Hcb _ _ _ _ _ _ Hdel)
        as (dsa & Hcalls2 & Hcon2).
      destruct r2 as [u | e].
      * destruct (IH _ _ _ _ _ _ H) as (dsb & Hcalls' & Hcon').
        exists (dsa ++ dsb)%list.
        rewrite Hcalls', Hcalls2, Hcon', Hcon2, Hpar, map_app, <- !app_assoc. auto.
      * inversion H; subst. exists dsa. rewrite Hcon2, Hpar. auto.
    + inversion H; subst. exists []. rewrite !app_nil_r. auto.
  - inversion H; subst. exists []. rewrite !app_nil_r. auto.
Qed.

(** C1.  Let the node serve every block of a range with [from <= to]: it
    has a hash for the number, the block with that number, its events with
    a dispatch outcome for each extrinsic, a timestamp below 2^53 and a fee
    quote for each extrinsic; let it answer the author-mapping and identity
    queries, with a maximum block weight that is not zero; let the
    concurrency be at least one (the default when none is given) and the
    callback return.  Then [exploreBlockRange] ends normally with any fuel
    above [to - from + 1], having invoked the callback exactly
    [to - from + 1] times, on snapshots of the blocks [from], [from + 1],
    ..., [to] of the node in that order: the block numbers it sees are
    strictly increasing.  The callback has run on each of them: one that
    writes a line per call leaves on the console the lines of these
    snapshots, in that order, and nothing else has written there. *)
Theorem exploreBlockRange_once_per_block_increasing
    (api : Api) (host : Host) (range : BlockRangeOption)
    (callBack : BlockDetails -> M unit) (w : World) :
  from range <= to range ->
  1 <= default 1 (concurrency range) ->
  maxBlock api <> 0%N ->
  resolverServes api ->
  (forall n, from range <= n <= to range -> nodeServes api n) ->
  (forall d w0, exists w1, callBack d w0 = (Ok tt, w1)) ->
  exists w' calls,
    (forall fuel, (Z.to_nat (to range - from range + 1) < fuel)%nat ->
       exploreBlockRange fuel api host range callBack w = Some (Ok tt, w', calls))
    /\ Z.of_nat (length calls) = to range - from range + 1
    /\ map blockNumberOf calls = seqZ (from range) (to range - from range + 1)
    /\ StronglySorted Z.lt (map blockNumberOf calls)
    /\ List.Forall (heldBy api) calls
    /\ (forall label : BlockDetails -> string,
          (forall d w0,
             console (snd (callBack d w0)) = (console w0 ++ [label d])%list) ->
          console w' = (console w ++ map label calls)%list).
Proof.
  intros Hrange Hconc Hmax Hserve Hnode Hcb.
  destruct (exploreLoop_delivers api host callBack (from range) (to range)
              (default 1 (concurrency range)) (heldBy api) Hconc
              (fun n w0 Hn => blockTask_total api host n Hmax Hserve (Hnode n Hn) w0)
              Hcb
              (Z.to_nat (to range - from range + 1)) (from range) [] w)
    as (w' & ds & Hrun & Hnums & Hheld); [lia | lia |].
  exists w', ds. split; [| split; [| split; [| split; [| split]]]].
  - intros fuel Hfuel. unfold exploreBlockRange. apply Hrun, Hfuel.
  - rewrite <- (length_map blockNumberOf), Hnums, length_seqZ. lia.
  - exact Hnums.
  - rewrite Hnums. apply seqZ_increasing.
  - exact Hheld.
  - intros label Hlabel.
    destruct (exploreLoop_console api host (default 1 (concurrency range)) (to range)
                callBack label Hlabel _ _ _ _ _ _ _
                (Hrun (S (Z.to_nat (to range - from range + 1))) (Nat.lt_succ_diag_r _)))
      as (ds' & Hds & Hcon).
    cbn [app] in Hds. subst ds'. exact Hcon.
Qed.

(** Blocks 9 to 11 of the small chain, each of which names an author. *)
Lemma demo_authored_served n :
  from authoredRange <= n <= to authoredRange -> nodeServes demoApi n.
Proof.
  cbn. intros Hn.
  assert (Hcases : n = 9 \/ n = 10 \/ n = 11) by lia.
  destruct Hcases as [-> | [-> | ->]];
    eexists; eexists; eexists; eexists;
    (split; [reflexivity |]); (split; [reflexivity |]); (split; [reflexivity |]);
    (split; [reflexivity |]); (split; [reflexivity |]); (split; [reflexivity |]);
    (split; [reflexivity |]); (split; [repeat constructor | reflexivity]).
Qed.

Lemma demo_resolver_serves : resolverServes demoApi.
Proof.
  intros a. cbn. destruct (String.eqb a "0xauthor1"), (String.eqb a "0xacc1");
    split; reflexivity.
Qed.

(** The walk over blocks 9 to 11, two at a time: the callback is handed, in
    this order, the block whose author has no account, and the two blocks
    of the author registered as alice. *)
Lemma exploreBlockRange_demo :
  exists w' calls,
    (forall fuel, (3 < fuel)%nat ->
       exploreBlockRange fuel demoApi demoHost authoredRange demoCallBack demoWorld
         = Some (Ok tt, w', calls))
    /\ Z.of_nat (length calls) = 3
    /\ map blockNumberOf calls = [9; 10; 11]
    /\ map authorName calls = [""; "alice"; "alice"]
    /\ console w' = [""; "alice"; "alice"].
Proof.
  destruct (exploreBlockRange_once_per_block_increasing
              demoApi demoHost authoredRange demoCallBack demoWorld)
    as (w' & calls & Hrun & Hlen & Hnums & _ & _ & Hcon).
  - cbn. lia.
  - cbn. lia.
  - discriminate.
  - exact demo_resolver_serves.
  - exact demo_authored_served.
  - intros d w0. eexists. reflexivity.
  - exists w', calls.
    split; [exact Hrun |]. split; [exact Hlen |]. split; [exact Hnums |].
    pose proof (Hrun 4%nat (Nat.lt_succ_diag_r 3)) as Hfour.
    apply (f_equal (option_map (fun p => map authorName (snd p)))) in Hfour.
    cbn [option_map snd] in Hfour.
    remember (map authorName calls) as names eqn:Hnames.
    vm_compute in Hfour. inversion Hfour as [Hvalues].
    split; [reflexivity |].
    rewrite (Hcon authorName (fun d w0 => eq_refl)), <- Hnames, <- Hvalues.
    reflexivity.
Defined.

(** ** Live follower *)







Lemma listenBlocks_history api finalized callBack w :
  history (listenBlocks api finalized callBack w) = [].
Proof. unfold listenBlocks. destruct (baselineTime api w). reflexivity. Qed.











Lemma headAnswers_ok api host h w blockDetails pendingTxs w' :
  headAnswers api host h w = (Ok (blockDetails, pendingTxs), w') ->
  api_at api h = Ok tt
  /\ (exists w0, getBlockDetailsFrom api host h w0 = (Ok blockDetails, w'))
  /\ (exists t, pendingExtrinsics api t = Ok pendingTxs).
Proof.
  unfold headAnswers, answerOf. intros H.
  destruct (api_at api h) as [[] | e].
  - destruct (getBlockDetailsFrom api host h _) as [[d | e] w3] eqn:Hagg.
    + destruct (pendingExtrinsics api _) as [txs | e] eqn:Hpool;
        cbn in H; inversion H; subst. eauto.
    + destruct (pendingExtrinsics api _); cbn in H; discriminate H.
  - destruct (pendingExtrinsics api _); cbn in H; discriminate H.
Qed.


Lemma listenBlocks_console api finalized callBack w :
  console (world (listenBlocks api finalized callBack w)) = console w.
Proof.
  unfold listenBlocks, baselineTime.
  pose proof (console_bind
                (rpc api ReqHeadBlock (headBlock api (now w)))
                (fun b => bind (rpc api (ReqTimestamp (parentHash (header b)))
                                    (timestampNow api (parentHash (header b))))
                               (fun t => lift (toNumber t)))
                (console_rpc _ _ _)
                (fun b => console_bind _ _ (console_rpc _ _ _)
                            (fun t => console_pure (fun _ => toNumber t))) w) as Hc.
  destruct (bind _ _ w) as [[t | e] w1]; exact Hc.
Qed.





Lemma demoOverlap_run : listenRun demoApi demoHost demoStart demoOverlap.
Proof.
  eapply run_step; [eapply run_step; [eapply run_step;
    [eapply run_step; [apply run_refl | apply (step_head _ _ "0xb5"); reflexivity] |
     apply (step_resume _ _ "0xb5"); vm_compute; auto] |
    apply (step_head _ _ "0xb6"); reflexivity] |].
  apply (step_return _ _ "0xb5"). vm_compute. auto.
Qed.




(** ** Snapshot formatter *)

(** C5 (as the code has it).  The line is the local time of day at the call,
    a blank, and a text that does not depend on the world: two runs on the
    same snapshot, previous snapshot and options, under the same process
    settings, that read the same clock return the same string.  The world
    is left as it was, so that nothing but the result comes out of a run. *)
Theorem generateBlockDetailsLog_time_then_fixed_text
    (host : Host) (d : BlockDetails) (options : option Options)
    (previous : option BlockDetails) :
  exists body : Res string,
    forall w,
      generateBlockDetailsLog host d options previous w
      = (res_bind body
           (fun text => Ok (toLocaleTimeString host (now w) ++ " " ++ text)%string),
         w).
Proof.
  exists (res_bind (feesOf d) (fun fees =>
            res_bind (transferredOf d) (fun transferred =>
              Ok (lineBody host d options previous fees transferred)))).
  intros w. unfold generateBlockDetailsLog, bind, lift, dateNow, ret.
  destruct (feesOf d); [| reflexivity].
  destruct (transferredOf d); reflexivity.
Qed.

(** C5 as stated fails: the same snapshot, without options or previous
    snapshot, rendered at two instants one second apart gives two different
    strings. *)
Lemma generateBlockDetailsLog_differs_with_the_clock :
  fst (generateBlockDetailsLog demoHost syntheticSnapshot None None demoWorld)
  = Ok "12:34:56 #1234    [45.00%, 0.005 fees,   3 Txs (  1 Eth)(<->   20)][Pool:  50](hash: 0x12345..cdef) by abc...wxyz"
  /\ fst (generateBlockDetailsLog demoHost syntheticSnapshot None None
            (elapse 1000 demoWorld))
     = Ok "12:34:57 #1234    [45.00%, 0.005 fees,   3 Txs (  1 Eth)(<->   20)][Pool:  50](hash: 0x12345..cdef) by abc...wxyz"
  /\ fst (generateBlockDetailsLog demoHost syntheticSnapshot None None demoWorld)
     <> fst (generateBlockDetailsLog demoHost syntheticSnapshot None None
               (elapse 1000 demoWorld)).
Proof.
  split; [vm_compute; reflexivity |]. split; [vm_compute; reflexivity |].
  vm_compute. discriminate.
Qed.

Lemma string_app_assoc (a b c : string) :
  ((a ++ b) ++ c = a ++ b ++ c)%string.
Proof.
  induction a as [|x a IH]; [reflexivity |].
  change (String x ((a ++ b) ++ c) = String x (a ++ b ++ c))%string.
  rewrite IH. reflexivity.
Qed.

Lemma prefix_empty (s : string) : String.prefix "" s = true.
Proof. destruct s; reflexivity. Qed.

Lemma prefix_app_l (sub a b : string) :
  String.prefix sub a = true -> String.prefix sub (a ++ b) = true.
Proof.
  revert a. induction sub as [|c sub IH]; intros a H; [apply prefix_empty |].
  destruct a as [|c' a]; [discriminate H |].
  change (String c' a ++ b)%string with (String c' (a ++ b)).
  cbn [String.prefix] in *.
  destruct (Ascii.ascii_dec c c'); [apply IH; assumption | discriminate H].
Qed.

Lemma includes_app_l (sub a b : string) :
  Js.includes sub a = true -> Js.includes sub (a ++ b) = true.
Proof.
  induction a as [|c a IH]; intros H.
  - cbn in H. rewrite orb_false_r in H. destruct sub; [| discriminate H].
    destruct b; reflexivity.
  - cbn [Js.includes] in H. apply orb_true_iff in H as [H | H].
    + pose proof (prefix_app_l sub (String c a) b H) as Hp.
      change (String c a ++ b)%string with (String c (a ++ b)) in *.
      cbn [Js.includes]. rewrite Hp. reflexivity.
    + change (String c a ++ b)%string with (String c (a ++ b)).
      cbn [Js.includes]. rewrite (IH H). apply orb_true_r.
Qed.

Lemma includes_app_r (sub a b : string) :
  Js.includes sub b = true -> Js.includes sub (a ++ b) = true.
Proof.
  intros H. induction a as [|c a IH]; [exact H |].
  change (String c a ++ b)%string with (String c (a ++ b)).
  cbn [Js.includes]. rewrite IH. apply orb_true_r.
Qed.

Lemma includes_middle (sub a m b : string) :
  Js.includes sub m = true -> Js.includes sub (a ++ m ++ b) = true.
Proof. intros H. apply includes_app_r, includes_app_l, H. Qed.

Section Synthetic.
Variables (host : Host) (d prev : BlockDetails) (options : option Options).
Variables (fees transferred : N) (rt prt : Realtime).

Hypothesis colours_off : colorEnabled host = false.
Hypothesis weight_45 : weightPercentage d = Js.ofZ 45.
Hypothesis three_extrinsics : length (extrinsics (block d)) = 3%nat.
Hypothesis one_ethereum : ethTxsOf d = 1%nat.
Hypothesis fee_total : (fees / 10 ^ 15 = 5)%N.
Hypothesis transferred_20 : (transferred / 10 ^ 18 = 20)%N.
Hypothesis pool_50 : realtime d = Some rt /\ length (pendingTxs rt) = 50%nat.
Hypothesis pool_40 : realtime prev = Some prt /\ length (pendingTxs prt) = 40%nat.
Hypothesis ten_new : txPoolDiffOf (pendingTxs rt) (pendingTxs prt) = 10%nat.
Hypothesis elapsed_3000 : blockTime d - blockTime prev = 3000.

Lemma chalk_off code s : chalk host code s = s.
Proof. unfold chalk. rewrite colours_off. reflexivity. Qed.

Lemma weightText_synthetic : weightTextOf host d = "45.00".
Proof.
  unfold weightTextOf, red, yellow, green. rewrite !chalk_off, weight_45.
  vm_compute. reflexivity.
Qed.

Lemma feesText_synthetic : feesTextOf host fees = "0.005".
Proof.
  unfold feesTextOf, red, yellow, green. rewrite !chalk_off, fee_total.
  vm_compute. reflexivity.
Qed.

Lemma extText_synthetic : extTextOf host d = "  3".
Proof.
  unfold extTextOf, red, yellow, green. rewrite !chalk_off, three_extrinsics.
  vm_compute. reflexivity.
Qed.

Lemma evmText_synthetic : evmTextOf host d = "  1".
Proof.
  unfold evmTextOf, red, yellow, green. rewrite !chalk_off, one_ethereum.
  vm_compute. reflexivity.
Qed.

Lemma transferredText_synthetic : transferredTextOf host transferred = "   20".
Proof.
  unfold transferredTextOf, red, yellow, green. rewrite !chalk_off, transferred_20.
  vm_compute. reflexivity.
Qed.

Lemma poolSegment_synthetic : poolSegment host d (Some prev) = "[Pool:  50(+ 10)]".
Proof.
  destruct pool_50 as [Hrt H50]. destruct pool_40 as [Hprt H40].
  unfold poolSegment. rewrite Hrt. cbn [mbind option_bind]. rewrite Hprt.
  unfold txPoolTextOf, poolIncTextOf, red, yellow.
  rewrite !chalk_off, H50, ten_new. vm_compute. reflexivity.
Qed.

Lemma secondText_synthetic : secondTextOf host d (Some prev) = Some "  3.0".
Proof.
  unfold secondTextOf, red, yellow. rewrite !chalk_off, elapsed_3000.
  vm_compute. reflexivity.
Qed.

Lemma lineBody_synthetic :
  exists before after,
    lineBody host d options (Some prev) fees transferred
    = (before ++ syntheticMiddle ++ after)%string.
Proof.
  exists (match optionText options prefix with Some p => p ++ " " | None => "" end
          ++ "#" ++ Js.padEnd (Js.stringOfZ (number (header (block d)))) 7)%string.
  exists (shortened (hash (header (block d))) ++ ")"
          ++ match optionText options suffix with Some s => " " ++ s | None => "" end
          ++ " by " ++ authorIdText d)%string.
  unfold lineBody.
  rewrite weightText_synthetic, feesText_synthetic, extText_synthetic,
    evmText_synthetic, transferredText_synthetic, poolSegment_synthetic,
    secondText_synthetic.
  rewrite !string_app_assoc. reflexivity.
Qed.
End Synthetic.

(** C6 (as the code has it).  For a snapshot as the synthetic one (weight
    45.00%, 3 extrinsics, 1 ethereum transaction, fees of 0.005 token, 20
    tokens transferred, 50 pending transactions of which 10 were not
    pending at the previous snapshot, which had 40 and is 3000 ms older),
    rendered without colours, the line contains [45.00%], [ 0.005 fees],
    [(+ 10)] (the count is padded to three characters) and [3.0s]. *)
Theorem generateBlockDetailsLog_synthetic_substrings
    (host : Host) (d prev : BlockDetails) (options : option Options)
    (fees transferred : N) (rt prt : Realtime) (w : World) :
  colorEnabled host = false ->
  weightPercentage d = Js.ofZ 45 ->
  length (extrinsics (block d)) = 3%nat ->
  ethTxsOf d = 1%nat ->
  feesOf d = Ok fees -> (fees / 10 ^ 15 = 5)%N ->
  transferredOf d = Ok transferred -> (transferred / 10 ^ 18 = 20)%N ->
  realtime d = Some rt /\ length (pendingTxs rt) = 50%nat ->
  realtime prev = Some prt /\ length (pendingTxs prt) = 40%nat ->
  txPoolDiffOf (pendingTxs rt) (pendingTxs prt) = 10%nat ->
  blockTime d - blockTime prev = 3000 ->
  exists line,
    generateBlockDetailsLog host d options (Some prev) w = (Ok line, w)
    /\ Js.includes "45.00%" line = true
    /\ Js.includes " 0.005 fees" line = true
    /\ Js.includes "(+ 10)" line = true
    /\ Js.includes "3.0s" line = true.
Proof.
  intros Hcol Hw H3 H1 Hfees Hfee Htr Htr20 H50 H40 H10 Hel.
  destruct (lineBody_synthetic host d prev options fees transferred rt prt
              Hcol Hw H3 H1 Hfee Htr20 H50 H40 H10 Hel) as (before & after & Hbody).
  exists (toLocaleTimeString host (now w) ++ " " ++ before ++ syntheticMiddle ++ after)%string.
  split.
  - unfold generateBlockDetailsLog, bind, lift, dateNow, ret.
    rewrite Hfees, Htr, Hbody. reflexivity.
  - repeat split; apply includes_app_r, (includes_app_r _ " "), includes_middle;
      vm_compute; reflexivity.
Qed.

(** The synthetic snapshot itself. *)
Lemma generateBlockDetailsLog_synthetic_demo :
  exists line,
    generateBlockDetailsLog demoHost syntheticSnapshot None (Some syntheticPrevious)
                            demoWorld = (Ok line, demoWorld)
    /\ Js.includes "45.00%" line = true
    /\ Js.includes " 0.005 fees" line = true
    /\ Js.includes "(+ 10)" line = true
    /\ Js.includes "3.0s" line = true.
Proof.
  apply (generateBlockDetailsLog_synthetic_substrings
           demoHost syntheticSnapshot syntheticPrevious None
           (5 * 10 ^ 15) (20 * 10 ^ 18)
           {| elapsedMilliSecs := 3000; pendingTxs := pool 50 |}
           {| elapsedMilliSecs := 3000; pendingTxs := pool 40 |} demoWorld);
    try (vm_compute; reflexivity); split; vm_compute; reflexivity.
Defined.

(** C6 as stated fails: the line of the synthetic snapshot has [(+ 10)], the
    count padded to three characters, and not [(+10)]; and with colours on,
    the escape sequences that close the colour stand between [45.00] and
    [%] and between [0.005] and [ fees]. *)
Lemma synthetic_line_lacks_plus_10 :
  fst (generateBlockDetailsLog demoHost syntheticSnapshot None (Some syntheticPrevious)
         demoWorld)
  = Ok "12:34:56 #1234    [45.00%, 0.005 fees,   3 Txs (  1 Eth)(<->   20)][Pool:  50(+ 10)][  3.0s](hash: 0x12345..cdef) by abc...wxyz"
  /\ Js.includes "(+10)"
       "12:34:56 #1234    [45.00%, 0.005 fees,   3 Txs (  1 Eth)(<->   20)][Pool:  50(+ 10)][  3.0s](hash: 0x12345..cdef) by abc...wxyz"
     = false
  /\ match fst (generateBlockDetailsLog colorHost syntheticSnapshot None
                  (Some syntheticPrevious) demoWorld) with
     | Ok line =>
         Js.includes "(+10)" line = false
         /\ Js.includes "45.00%" line = false
         /\ Js.includes " 0.005 fees" line = false
     | Err _ => False
     end.
Proof. vm_compute. repeat split. Qed.

(** With a concurrency below one the inner loop starts no task and [current]
    never moves: the walk over a non-empty range does not end, whatever the
    fuel. *)
Lemma exploreLoop_needs_concurrency api host conc upto callBack fuel :
  conc <= 0 ->
  forall current calls w,
    current <= upto ->
    exploreLoop fuel api host conc upto callBack current calls w = None.
Proof.
  intros Hconc. induction fuel as [|fuel IH]; intros current calls w Hcur;
    [reflexivity |].
  cbn [exploreLoop]. replace (current <=? upto) with true by lia.
  rewrite startTasks_spec by lia.
  replace (Z.max 0 (Z.min (conc - 0) (upto - current + 1))) with 0 by lia.
  rewrite seqZ_nil by lia. cbn [map parAll ret deliverEach].
  replace (current + 0) with current by lia. apply IH, Hcur.
Qed.

(** * Further properties of the code *)

(** ** Identity resolver: answers, failures and the two caches *)

(** X1.  When the entry of a non-empty account is missing or stale and the
    node answers, [getAccountIdentity] issues the one [identityOf] request,
    stores the answer under the account with the time of the answer, and
    returns the display text of a registered identity (the text of its
    bytes, raw or not), or the account identifier itself when none is
    registered; the author-mapping cache is not touched. *)
Theorem getAccountIdentity_refreshes (api : Api) (account : string)
    (reg : option PalletIdentityRegistration) (w : World) :
  account <> "" ->
  identityStale w account = true ->
  identityOf api account = Ok reg ->
  exists w',
    getAccountIdentity api (Some account) w
    = (Ok (match reg with Some r => displayText r | None => account end), w')
    /\ requests w' = (requests w ++ [ReqIdentityOf account])%list
    /\ identityCache w'
       = <[account := {| identity := reg; id_lastUpdate := now w' |}]> (identityCache w)
    /\ now w' = now w + latency api (ReqIdentityOf account)
    /\ authorMappingCache w' = authorMappingCache w.
Proof.
  intros Hne Hstale Hreg. destruct account as [|c rest]; [contradiction |].
  unfold getAccountIdentity, bind. rewrite Hstale. unfold rpc, storeIdentity.
  rewrite Hreg. cbn. rewrite lookup_insert_eq. cbn.
  destruct reg as [r |]; eexists; (split; [reflexivity |]); cbn; auto.
Qed.

(** The account mapped to the first author of the small chain, and an
    account nobody registered. *)
Lemma getAccountIdentity_refreshes_demo :
  (exists w', getAccountIdentity demoApi (Some "0xacc1") demoWorld = (Ok "alice", w'))
  /\ (exists w', getAccountIdentity demoApi (Some "0xacc2") demoWorld = (Ok "0xacc2", w')).
Proof.
  split.
  - destruct (getAccountIdentity_refreshes demoApi "0xacc1" (Some alice) demoWorld)
      as (w' & Hrun & _); [discriminate | reflexivity | reflexivity |].
    exists w'. exact Hrun.
  - destruct (getAccountIdentity_refreshes demoApi "0xacc2" None demoWorld)
      as (w' & Hrun & _); [discriminate | reflexivity | reflexivity |].
    exists w'. exact Hrun.
Defined.

(** X2.  A refused [identityOf] request makes [getAccountIdentity] fail with
    the error of the node and writes nothing: both caches are as before, so
    that the entry is still missing or stale for the next call. *)
Theorem getAccountIdentity_failure_writes_nothing (api : Api) (account : string)
    (e : string) (w : World) :
  account <> "" ->
  identityStale w account = true ->
  identityOf api account = Err e ->
  exists w',
    getAccountIdentity api (Some account) w = (Err e, w')
    /\ requests w' = (requests w ++ [ReqIdentityOf account])%list
    /\ sameCaches w w'.
Proof.
  intros Hne Hstale Hreg. destruct account as [|c rest]; [contradiction |].
  unfold getAccountIdentity, bind. rewrite Hstale. unfold rpc.
  rewrite Hreg. eexists. split; [reflexivity |]. cbn. unfold sameCaches. auto.
Qed.

(** An account asked of a node that is down. *)
Lemma getAccountIdentity_failure_demo :
  exists w',
    getAccountIdentity downApi (Some "0xacc1") demoWorld = (Err "node down", w')
    /\ requests w' = (requests demoWorld ++ [ReqIdentityOf "0xacc1"])%list
    /\ sameCaches demoWorld w'.
Proof.
  apply (getAccountIdentity_failure_writes_nothing downApi "0xacc1" "node down"
           demoWorld); [discriminate | reflexivity | reflexivity].
Defined.

(** X3.  A refused [mappingWithDeposit] request makes [getAuthorIdentity]
    fail with the error of the node; no identity request follows and
    neither cache is written. *)
Theorem getAuthorIdentity_failure_writes_nothing (api : Api) (host : Host)
    (author : string) (e : string) (w : World) :
  authorStale w author = true ->
  mappingWithDeposit api author = Err e ->
  exists w',
    getAuthorIdentity api host author w = (Err e, w')
    /\ requests w' = (requests w ++ [ReqMappingWithDeposit author])%list
    /\ sameCaches w w'.
Proof.
  intros Hstale Hmap. unfold getAuthorIdentity, bind. rewrite Hstale.
  unfold rpc. rewrite Hmap. eexists. split; [reflexivity |].
  cbn. unfold sameCaches. auto.
Qed.


(** An author asked of a node that is down. *)
Lemma getAuthorIdentity_failure_demo :
  exists w',
    getAuthorIdentity downApi demoHost "0xauthor1" demoWorld = (Err "node down", w')
    /\ requests w' = (requests demoWorld ++ [ReqMappingWithDeposit "0xauthor1"])%list
    /\ sameCaches demoWorld w'.
Proof.
  apply (getAuthorIdentity_failure_writes_nothing downApi demoHost "0xauthor1"
           "node down" demoWorld); reflexivity.
Defined.



(** ** Batched resolution *)


Lemma accountDisplay_cachedName w a name :
  accountDisplay w a = Ok name -> cachedName w a name.
Proof.
  unfold accountDisplay, cachedName. destruct a as [|c rest]; cbn [truthy].
  - intros H. inversion H. left. auto.
  - destruct (identityCache w !! String c rest) as [e |]; [| discriminate].
    intros H. right. exists e. split; [reflexivity |].
    destruct (identity e); inversion H; reflexivity.
Qed.

(** X6.  The batched resolution keeps the order of its input: when it
    returns, it returns one text per account, the text at each position
    being the name that the identity cache, as the call leaves it, gives
    the account at that position: the display text of its identity, the
    account itself when it has none, the empty text for the empty
    account. *)
Theorem getAccountIdentities_in_input_order (api : Api) (host : Host)
    (accounts : list string) (at_hash : option Hash) (w : World)
    (names : list string) (w' : World) :
  getAccountIdentities api host (Some accounts) at_hash w = (Ok names, w') ->
  length names = length accounts
  /\ Forall2 (cachedName w') accounts names
  /\ (forall i, accounts !! i = Some "" -> names !! i = Some "").
Proof.
  intros Hrun.
  assert (Hall : Forall2 (fun a name => accountDisplay w' a = Ok name) accounts names).
  { destruct accounts as [|a rest]; [inversion Hrun; constructor |].
    rewrite getAccountIdentities_run in Hrun.
    destruct (missingAccounts w (a :: rest)) as [|m ms].
    - apply (f_equal fst) in Hrun as Hnames. apply (f_equal snd) in Hrun as Hw.
      cbn [fst snd] in Hnames, Hw. subst w'. apply res_mapM_Forall2. exact Hnames.
    - destruct (queryStorageAt api _ at_hash) as [ids | e]; [| discriminate Hrun].
      apply (f_equal fst) in Hrun as Hnames. apply (f_equal snd) in Hrun as Hw.
      cbn [fst snd] in Hnames, Hw. rewrite Hw in Hnames.
      apply res_mapM_Forall2. exact Hnames. }
  split; [symmetry; eapply Forall2_length; exact Hall |].
  split.
  - eapply Forall2_impl; [exact Hall |]. intros a name.
    apply accountDisplay_cachedName.
  - intros i Hi.
    destruct (Forall2_lookup_l _ _ _ _ _ Hall Hi) as (name & Hname & Hdisp).
    cbn in Hdisp. inversion Hdisp. subst name. exact Hname.
Qed.

(** Three accounts: one registered, one empty, one without identity. *)
Lemma getAccountIdentities_in_input_order_demo :
  exists w',
    getAccountIdentities demoApi demoHost (Some ["0xacc1"; ""; "0xacc2"]) None demoWorld
    = (Ok ["alice"; ""; "0xacc2"], w')
    /\ Forall2 (cachedName w') ["0xacc1"; ""; "0xacc2"] ["alice"; ""; "0xacc2"].
Proof.
  destruct (getAccountIdentities demoApi demoHost (Some ["0xacc1"; ""; "0xacc2"]) None
              demoWorld) as [r w'] eqn:Hrun.
  assert (Hnames : r = Ok ["alice"; ""; "0xacc2"]).
  { apply (f_equal fst) in Hrun. cbn [fst] in Hrun. rewrite <- Hrun.
    vm_compute. reflexivity. }
  subst r. exists w'. split; [reflexivity |].
  apply (getAccountIdentities_in_input_order demoApi demoHost
           ["0xacc1"; ""; "0xacc2"] None demoWorld _ w' Hrun).
Defined.

Lemma identityStale_false_entry (w : World) (a : string) :
  identityStale w a = false -> is_Some (identityCache w !! a).
Proof.
  unfold identityStale. destruct (identityCache w !! a); [eauto | discriminate].
Qed.

(** X7.  When the node answers the batched request with one identity per
    key, every account that was missing or stale has, after the call, an
    entry written at the time of the answer, and every non-empty account of
    the input has an entry. *)
Theorem getAccountIdentities_refreshes_all (api : Api) (host : Host)
    (accounts : list string) (at_hash : option Hash) (w : World)
    (ids : list (option PalletIdentityRegistration)) :
  queryStorageAt api (map (getIdentityKey host) (missingAccounts w accounts)) at_hash
  = Ok ids ->
  length ids = length (missingAccounts w accounts) ->
  forall a, In a accounts -> a <> "" ->
    let w' := snd (getAccountIdentities api host (Some accounts) at_hash w) in
    is_Some (identityCache w' !! a)
    /\ (In a (missingAccounts w accounts) ->
        exists e, identityCache w' !! a = Some e /\ id_lastUpdate e = now w').
Proof.
  intros Hanswer Hlen a Hin Hne. cbv zeta.
  destruct accounts as [|a0 rest]; [destruct Hin |].
  rewrite getAccountIdentities_run. cbv zeta.
  assert (Hcases : In a (missingAccounts w (a0 :: rest))
                   \/ identityStale w a = false).
  { unfold missingAccounts. destruct (identityStale w a) eqn:Hstale; [left | right; reflexivity].
    apply filter_In. split; [exact Hin |]. rewrite Hstale.
    destruct a; [contradiction | reflexivity]. }
  destruct (missingAccounts w (a0 :: rest)) as [|m ms] eqn:Hmissing.
  - cbn [snd]. destruct Hcases as [[] | Hfresh].
    split; [apply identityStale_false_entry, Hfresh | intros []].
  - rewrite Hanswer. cbn [snd].
    match goal with
    | |- context [storeIdentities ?l 0 ids ?w1] =>
        destruct (storeIdentities_effect l ids 0 w1)
          as (_ & Hnow & _ & _ & _ & Hkeep & _ & Hnew)
    end.
    assert (Hwritten : In a (m :: ms) ->
              exists e,
                identityCache
                  (snd (storeIdentities (m :: ms) 0 ids
                          (elapse (latency api (ReqQueryStorageAt
                                     (map (getIdentityKey host) (m :: ms)) at_hash))
                             (logRequest (ReqQueryStorageAt
                                     (map (getIdentityKey host) (m :: ms)) at_hash) w))))
                  !! a = Some e
                /\ id_lastUpdate e
                   = now (snd (storeIdentities (m :: ms) 0 ids
                          (elapse (latency api (ReqQueryStorageAt
                                     (map (getIdentityKey host) (m :: ms)) at_hash))
                             (logRequest (ReqQueryStorageAt
                                     (map (getIdentityKey host) (m :: ms)) at_hash) w))))).
    { intros Hmem. destruct (In_nth _ _ "undefined" Hmem) as (j & Hj & Hnth).
      rewrite Hnow. rewrite <- Hnth. apply Hnew. lia. }
    split; [| exact Hwritten].
    destruct Hcases as [Hmem | Hfresh].
    + destruct (Hwritten Hmem) as (e & He & _). eauto.
    + apply Hkeep. cbn. apply identityStale_false_entry, Hfresh.
Qed.

(** The first of the three accounts above, which was missing. *)
Lemma getAccountIdentities_refreshes_all_demo :
  let w' := snd (getAccountIdentities demoApi demoHost
                   (Some ["0xacc1"; ""; "0xacc2"]) None demoWorld) in
  is_Some (identityCache w' !! "0xacc1")
  /\ (In "0xacc1" (missingAccounts demoWorld ["0xacc1"; ""; "0xacc2"]) ->
      exists e, identityCache w' !! "0xacc1" = Some e /\ id_lastUpdate e = now w').
Proof.
  apply (getAccountIdentities_refreshes_all demoApi demoHost
           ["0xacc1"; ""; "0xacc2"] None demoWorld [Some alice; None]).
  - vm_compute. reflexivity.
  - vm_compute. reflexivity.
  - left. reflexivity.
  - discriminate.
Defined.

(** ** No eviction *)

Lemma keeps_pure {A} (f : World -> Res A) : keepsEntries (fun w => (f w, w)).
Proof. intros w k. cbn. auto. Qed.

Lemma keeps_rpc {A} api (r : Request) (answer : Res A) :
  keepsEntries (rpc api r answer).
Proof. intros w k. cbn. auto. Qed.

Lemma keeps_storeIdentity a i : keepsEntries (storeIdentity a i).
Proof.
  intros w k. cbn. split; [| auto]. intros Hk.
  destruct (decide (a = k)) as [-> | Hne];
    [rewrite lookup_insert_eq; eauto | rewrite lookup_insert_ne by assumption; exact Hk].
Qed.

Lemma keeps_storeAuthor a i : keepsEntries (storeAuthor a i).
Proof.
  intros w k. cbn. split; [auto |]. intros Hk.
  destruct (decide (a = k)) as [-> | Hne];
    [rewrite lookup_insert_eq; eauto | rewrite lookup_insert_ne by assumption; exact Hk].
Qed.

Lemma keeps_bind {A B} (m : M A) (k : A -> M B) :
  keepsEntries m -> (forall a, keepsEntries (k a)) -> keepsEntries (bind m k).
Proof.
  intros Hm Hk w key. unfold bind. destruct (Hm w key) as [Hi Ha].
  destruct (m w) as [[a | e] w1]; cbn in *; [| auto].
  destruct (Hk a w1 key) as [Hi2 Ha2]. auto.
Qed.

Lemma keeps_par {A B} (a : M A) (b : M B) :
  keepsEntries a -> keepsEntries b -> keepsEntries (par a b).
Proof.
  intros Ha Hb w key. unfold par. destruct (Ha w key) as [Hi1 Ha1].
  destruct (a w) as [ra w1]; cbn in *.
  destruct (Hb w1 key) as [Hi2 Ha2]. destruct (b w1) as [rb w2]; cbn in *. auto.
Qed.

Lemma keeps_parAll {A} (l : list (M A)) :
  (forall m, In m l -> keepsEntries m) -> keepsEntries (parAll l).
Proof.
  induction l as [|a l IH]; intros Hl; cbn [parAll]; [apply (keeps_pure (fun _ => Ok [])) |].
  intros w key. destruct (Hl a (or_introl eq_refl) w key) as [Hi1 Ha1].
  destruct (a w) as [ra w1]; cbn in *.
  destruct (IH (fun m Hin => Hl m (or_intror Hin)) w1 key) as [Hi2 Ha2].
  destruct (parAll l w1) as [rl w2]; cbn in *. auto.
Qed.

Lemma keeps_getAccountIdentity api account :
  keepsEntries (getAccountIdentity api account).
Proof.
  unfold getAccountIdentity. destruct account as [[|c rest] |];
    try apply (keeps_pure (fun _ => Ok "")).
  apply keeps_bind; [apply (keeps_pure (fun w => Ok _)) |].
  intros stale. apply keeps_bind.
  - destruct stale; [| apply (keeps_pure (fun _ => Ok tt))].
    apply keeps_bind; [apply keeps_rpc |]. intros i. apply keeps_storeIdentity.
  - intros _ w key.
    destruct (identityCache w !! String c rest) as [e |]; [destruct (identity e) |];
      cbn; auto.
Qed.

Lemma keeps_getAuthorIdentity api host author :
  keepsEntries (getAuthorIdentity api host author).
Proof.
  unfold getAuthorIdentity.
  apply keeps_bind; [apply (keeps_pure (fun w => Ok _)) |].
  intros stale. apply keeps_bind.
  - destruct stale; [| apply (keeps_pure (fun _ => Ok tt))].
    apply keeps_bind; [apply keeps_rpc |]. intros m. apply keeps_storeAuthor.
  - intros _. apply keeps_bind.
    + intros w key. destruct (authorMappingCache w !! author); cbn; auto.
    + intros acc. apply keeps_getAccountIdentity.
Qed.

Lemma keeps_getBlockDetails api host blockHash :
  keepsEntries (getBlockDetails api host blockHash).
Proof.
  unfold getBlockDetails.
  apply keeps_bind; [apply keeps_rpc |]. intros _.
  apply keeps_bind.
  { apply keeps_par; [apply keeps_rpc |]. apply keeps_par; apply keeps_rpc. }
  intros [b [recs time]].
  apply keeps_bind.
  { apply keeps_par.
    - apply keeps_parAll. intros m Hin. apply in_map_iff in Hin as (ext & <- & _).
      apply keeps_rpc.
    - destruct (authorIdOf b) as [[|c rest] |];
        try apply (keeps_pure (fun _ => Ok zeroAuthor)).
      apply keeps_getAuthorIdentity. }
  intros [fees name].
  apply keeps_bind; [apply (keeps_pure (fun _ => _)) |]. intros blockWeight.
  apply keeps_bind; [apply (keeps_pure (fun _ => _)) |]. intros t.
  apply keeps_bind; [apply (keeps_pure (fun _ => _)) |]. intros wp.
  apply (keeps_pure (fun _ => Ok _)).
Qed.

Lemma keeps_getAccountIdentities api host accounts at_hash :
  keepsEntries (getAccountIdentities api host accounts at_hash).
Proof.
  destruct accounts as [[|a rest] |]; try apply (keeps_pure (fun _ => Ok [])).
  intros w key. rewrite getAccountIdentities_run. cbv zeta.
  destruct (missingAccounts w (a :: rest)) as [|m ms]; [cbn; auto |].
  destruct (queryStorageAt api _ at_hash) as [ids | e]; [| cbn; auto].
  cbn [snd].
  match goal with
  | |- context [storeIdentities ?l 0 ids ?w1] =>
      destruct (storeIdentities_effect l ids 0 w1)
        as (_ & _ & _ & Ham & _ & Hkeep & _)
  end.
  split; [intros Hk; apply Hkeep; exact Hk | rewrite Ham; auto].
Qed.

(** X8.  Nothing is ever evicted: whatever they return, [getAccountIdentity],
    [getAccountIdentities], [getAuthorIdentity] and [getBlockDetails] leave
    in the identity cache and in the author-mapping cache every key that
    was there before the call. *)
Theorem caches_never_lose_an_entry (api : Api) (host : Host) :
  (forall account, keepsEntries (getAccountIdentity api account))
  /\ (forall accounts at_hash,
        keepsEntries (getAccountIdentities api host accounts at_hash))
  /\ (forall author, keepsEntries (getAuthorIdentity api host author))
  /\ (forall blockHash, keepsEntries (getBlockDetails api host blockHash)).
Proof.
  split; [intros; apply keeps_getAccountIdentity |].
  split; [intros; apply keeps_getAccountIdentities |].
  split; [intros; apply keeps_getAuthorIdentity | intros; apply keeps_getBlockDetails].
Qed.

(** ** Block aggregator: what a snapshot holds and what a call asks *)

(** X9.  A snapshot returned by [getBlockDetails] describes one block: its
    block, its events and its timestamp are the answers of the node for the
    hash asked; the timestamp is a non-negative integer below 2^53 (a
    larger one makes the call fail); and the snapshot carries no
    [pendingTxs]. *)
Theorem getBlockDetails_describes_one_block (api : Api) (host : Host)
    (blockHash : Hash) (w : World) (d : BlockDetails) (w' : World) :
  getBlockDetails api host blockHash w = (Ok d, w') ->
  getBlock api blockHash = Ok (block d)
  /\ systemEvents api blockHash = Ok (records d)
  /\ timestampNow api blockHash = Ok (Z.to_N (blockTime d))
  /\ 0 <= blockTime d < 2 ^ 53
  /\ realtime d = None.
Proof.
  intros H.
  destruct (getBlockDetails_fetched _ _ _ _ _ _ H) as (Hb & Hrecs & t & Ht & Hnum).
  destruct (getBlockDetails_ok _ _ _ _ _ _ H) as (_ & _ & _ & _ & _ & Hrt).
  unfold toNumber in Hnum. destruct (t <? 2 ^ 53)%N eqn:Hlt; [| discriminate Hnum].
  inversion Hnum as [Hbt]. apply N.ltb_lt in Hlt.
  repeat split; auto; try lia.
  rewrite N2Z.id. exact Ht.
Qed.

(** Block 6 of the small chain. *)
Lemma getBlockDetails_describes_one_block_demo :
  exists d w',
    getBlockDetails demoApi demoHost "0xb6" demoWorld = (Ok d, w')
    /\ getBlock demoApi "0xb6" = Ok (block d)
    /\ systemEvents demoApi "0xb6" = Ok (records d)
    /\ timestampNow demoApi "0xb6" = Ok (Z.to_N (blockTime d))
    /\ 0 <= blockTime d < 2 ^ 53
    /\ realtime d = None.
Proof.
  destruct (getBlockDetails demoApi demoHost "0xb6" demoWorld) as [r w'] eqn:Hrun.
  assert (Hok : isOk r = true).
  { apply (f_equal (fun p => isOk (fst p))) in Hrun. vm_compute in Hrun.
    symmetry. exact Hrun. }
  destruct r as [d | e]; [| discriminate Hok].
  exists d, w'. split; [reflexivity |].
  exact (getBlockDetails_describes_one_block demoApi demoHost "0xb6" demoWorld d w' Hrun).
Defined.

Lemma parAll_rpc_cons {A} api (r : Request) (answer : Res A) (l : list (M A))
    (w : World) :
  snd (parAll (rpc api r answer :: l) w)
  = snd (parAll l (elapse (latency api r) (logRequest r w))).
Proof.
  cbn [parAll]. unfold rpc.
  destruct (parAll l (elapse (latency api r) (logRequest r w))). reflexivity.
Qed.

Lemma parAll_rpc_effect {A X} api (req : X -> Request) (ans : X -> Res A)
    (xs : list X) :
  forall w,
    requests (snd (parAll (map (fun x => rpc api (req x) (ans x)) xs) w))
    = (requests w ++ map req xs)%list
    /\ sameCaches w (snd (parAll (map (fun x => rpc api (req x) (ans x)) xs) w)).
Proof.
  induction xs as [|x xs IH]; intros w; cbn [map].
  - cbn. rewrite app_nil_r. unfold sameCaches. auto.
  - rewrite parAll_rpc_cons.
    destruct (IH (elapse (latency api (req x)) (logRequest (req x) w)))
      as (Hreq & Hid & Ham).
    rewrite Hreq. unfold sameCaches. rewrite Hid, Ham. cbn.
    rewrite <- app_assoc. auto.
Qed.

(** X10.  For a block in which no author is found (no [setAuthor] inherent
    with an argument and no [nmbs] digest), once the block, its events and
    its timestamp are in, [getBlockDetails] asks one fee quote per
    extrinsic, in order and against the parent hash, whatever the quotes
    before it answered, and nothing else; it does not touch the caches; and
    the author of the snapshot, when there is one, is the all-zero
    placeholder. *)
Theorem getBlockDetails_without_author (api : Api) (host : Host) (blockHash : Hash)
    (b : Block) (recs : list EventRecord) (t : N) (w : World) :
  api_at api blockHash = Ok tt ->
  getBlock api blockHash = Ok b ->
  systemEvents api blockHash = Ok recs ->
  timestampNow api blockHash = Ok t ->
  truthy (authorIdOf b) = false ->
  requests (snd (getBlockDetails api host blockHash w))
  = (requests w
     ++ [ReqAt blockHash; ReqGetBlock blockHash; ReqEvents blockHash;
         ReqTimestamp blockHash]
     ++ map (fun ext => ReqQueryInfo (ext_hex ext) (parentHash (header b)))
            (extrinsics b))%list
  /\ sameCaches w (snd (getBlockDetails api host blockHash w))
  /\ (forall d, fst (getBlockDetails api host blockHash w) = Ok d ->
                authorName d = zeroAuthor).
Proof.
  intros Hat Hb Hrecs Ht Hauthor.
  destruct (getBlockDetails api host blockHash w) as [r w'] eqn:Hrun. cbn [fst snd].
  unfold getBlockDetails, bind in Hrun. unfold rpc at 1 in Hrun. rewrite Hat in Hrun.
  unfold getBlockDetailsFrom, bind in Hrun.
  unfold par at 1 in Hrun. unfold rpc at 1 in Hrun. rewrite Hb in Hrun.
  unfold par at 1 in Hrun. unfold rpc at 1 2 in Hrun. rewrite Hrecs, Ht in Hrun.
  cbn [both fst snd] in Hrun.
  set (w2 := elapse _ (logRequest (ReqTimestamp blockHash) _)) in Hrun.
  assert (Hplace : (match authorIdOf b with
                    | Some (String _ _ as a) => getAuthorIdentity api host a
                    | _ => ret zeroAuthor
                    end) = ret zeroAuthor).
  { destruct (authorIdOf b) as [[|c rest] |];
      [reflexivity | discriminate Hauthor | reflexivity]. }
  rewrite Hplace in Hrun. unfold par, ret in Hrun.
  destruct (parAll_rpc_effect api
              (fun ext => ReqQueryInfo (ext_hex ext) (parentHash (header b)))
              (fun ext => queryInfo api (ext_hex ext) (parentHash (header b)))
              (extrinsics b) w2) as (Hreq & Hid & Ham).
  destruct (parAll _ w2) as [rf w3]. cbn [snd] in Hreq, Hid, Ham.
  assert (Hw3 : requests w3
                = (requests w
                   ++ [ReqAt blockHash; ReqGetBlock blockHash; ReqEvents blockHash;
                       ReqTimestamp blockHash]
                   ++ map (fun ext => ReqQueryInfo (ext_hex ext) (parentHash (header b)))
                          (extrinsics b))%list).
  { rewrite Hreq. subst w2. cbn. rewrite <- !app_assoc. reflexivity. }
  assert (Hc3 : sameCaches w w3).
  { unfold sameCaches. rewrite Hid, Ham. subst w2. cbn. auto. }
  assert (Hend : w' = w3 /\ forall d, r = Ok d -> authorName d = zeroAuthor).
  { destruct rf as [fees | e]; cbn [both] in Hrun;
      [| inversion Hrun; split; [reflexivity | intros d Hd; discriminate Hd]].
    unfold lift in Hrun.
    destruct (sumWeights _) as [bw | e];
      [| inversion Hrun; split; [reflexivity | intros d Hd; discriminate Hd]].
    destruct (toNumber t) as [bt | e];
      [| inversion Hrun; split; [reflexivity | intros d Hd; discriminate Hd]].
    destruct (weightPercentageOf bw (maxBlock api)) as [wp | e];
      [| inversion Hrun; split; [reflexivity | intros d Hd; discriminate Hd]].
    inversion Hrun. split; [reflexivity |]. intros d Hd. inversion Hd. reflexivity. }
  destruct Hend as [-> Hname]. auto.
Qed.

(** Block 6 has no author and three extrinsics. *)
Lemma getBlockDetails_without_author_demo :
  requests (snd (getBlockDetails demoApi demoHost "0xb6" demoWorld))
  = [ReqAt "0xb6"; ReqGetBlock "0xb6"; ReqEvents "0xb6"; ReqTimestamp "0xb6";
     ReqQueryInfo "0x01" "0xb5"; ReqQueryInfo "0x02" "0xb5"; ReqQueryInfo "0x03" "0xb5"]
  /\ sameCaches demoWorld (snd (getBlockDetails demoApi demoHost "0xb6" demoWorld))
  /\ (forall d, fst (getBlockDetails demoApi demoHost "0xb6" demoWorld) = Ok d ->
                authorName d = zeroAuthor).
Proof.
  apply (getBlockDetails_without_author demoApi demoHost "0xb6"
           {| header := {| number := 6; hash := "0xb6"; parentHash := "0xb5";
                           digestLogs := [] |};
              extrinsics := [timestampSet; ethTransact; balancesTransfer] |}
           (demoEvents "0xb6") 4000%N demoWorld); reflexivity.
Defined.

Lemma payingTxs_total (txs : list TxWithEventAndFee) :
  (forall tx, In tx txs -> dispatchInfo tx <> None) ->
  exists paying,
    payingTxs txs = Ok paying
    /\ forall tx di, In (tx, di) paying ->
         In tx txs /\ dispatchInfo tx = Some di
         /\ paysFee_isYes di = true /\ class_isMandatory di = false.
Proof.
  induction txs as [|tx txs IH]; intros Hall.
  - exists []. split; [reflexivity |]. intros tx di [].
  - destruct (IH (fun t Hin => Hall t (or_intror Hin))) as (rest & Hrest & Hprop).
    cbn [payingTxs]. destruct (dispatchInfo tx) as [di |] eqn:Hdi;
      [| exfalso; apply (Hall tx (or_introl eq_refl)); exact Hdi].
    rewrite Hrest. cbn [res_bind]. eexists. split; [reflexivity |].
    intros tx' di' Hin.
    destruct (paysFee_isYes di && negb (class_isMandatory di)) eqn:Hpay.
    + destruct Hin as [Heq | Hin].
      * inversion Heq; subst tx' di'. apply andb_true_iff in Hpay as [Hy Hm].
        apply negb_true_iff in Hm. repeat split; auto. left. reflexivity.
      * destruct (Hprop _ _ Hin) as (H1 & H2 & H3 & H4). repeat split; auto.
        right. exact H1.
    + destruct (Hprop _ _ Hin) as (H1 & H2 & H3 & H4). repeat split; auto.
      right. exact H1.
Qed.

Lemma hasWeight_dispatchInfo txs ws :
  Forall2 hasWeight txs ws -> forall tx, In tx txs -> dispatchInfo tx <> None.
Proof.
  induction 1 as [| tx x txs ws Hx _ IH]; intros tx' Hin; [destruct Hin |].
  destruct Hin as [<- | Hin]; [| apply IH, Hin].
  unfold hasWeight in Hx. destruct (dispatchInfo tx); [discriminate | discriminate Hx].
Qed.

(** X11.  The aggregator and the formatter fit together: on a snapshot
    returned by [getBlockDetails] the fee filter of the formatter never
    throws, every extrinsic having its dispatch outcome, and what it keeps
    are exactly extrinsics of the snapshot that pay a fee and are not
    mandatory. *)
Theorem getBlockDetails_snapshot_passes_fee_filter (api : Api) (host : Host)
    (blockHash : Hash) (w : World) (d : BlockDetails) (w' : World) :
  getBlockDetails api host blockHash w = (Ok d, w') ->
  exists paying,
    payingTxs (txWithEvents d) = Ok paying
    /\ forall tx di, In (tx, di) paying ->
         In tx (txWithEvents d) /\ dispatchInfo tx = Some di
         /\ paysFee_isYes di = true /\ class_isMandatory di = false.
Proof.
  intros H.
  destruct (getBlockDetails_ok _ _ _ _ _ _ H) as (fees & total & _ & Hsum & _).
  destruct (sumWeights_ok _ _ Hsum) as (ws & Hws & _).
  apply payingTxs_total. exact (hasWeight_dispatchInfo _ _ Hws).
Qed.

(** Block 6: the timestamp inherent is filtered out, two extrinsics pay. *)
Lemma getBlockDetails_snapshot_passes_fee_filter_demo :
  exists d w' paying,
    getBlockDetails demoApi demoHost "0xb6" demoWorld = (Ok d, w')
    /\ payingTxs (txWithEvents d) = Ok paying
    /\ length paying = 2%nat.
Proof.
  destruct (getBlockDetails demoApi demoHost "0xb6" demoWorld) as [r w'] eqn:Hrun.
  assert (Hok : isOk r = true).
  { apply (f_equal (fun p => isOk (fst p))) in Hrun. vm_compute in Hrun.
    symmetry. exact Hrun. }
  destruct r as [d | e]; [| discriminate Hok].
  destruct (getBlockDetails_snapshot_passes_fee_filter demoApi demoHost "0xb6"
              demoWorld d w' Hrun) as (paying & Hpaying & _).
  exists d, w', paying. split; [reflexivity |]. split; [exact Hpaying |].
  assert (Hd : Ok d = fst (getBlockDetails demoApi demoHost "0xb6" demoWorld))
    by (rewrite Hrun; reflexivity).
  vm_compute in Hd. inversion Hd; subst d. vm_compute in Hpaying.
  inversion Hpaying. reflexivity.
Defined.

(** ** Range walker: the walk that does not end, and the walk cut short *)

(** X12.  With a concurrency of zero or less, the walk over a range that is
    not empty never ends: the inner loop starts no task, [current] stays
    where it is, and no amount of fuel reaches the end of the outer loop. *)
Theorem exploreBlockRange_without_concurrency_never_ends
    (api : Api) (host : Host) (range : BlockRangeOption)
    (callBack : BlockDetails -> M unit) (w : World) (c : Z) (fuel : nat) :
  from range <= to range ->
  concurrency range = Some c ->
  c <= 0 ->
  exploreBlockRange fuel api host range callBack w = None.
Proof.
  intros Hrange Hc Hle. unfold exploreBlockRange. rewrite Hc. cbn [default].
  apply exploreLoop_needs_concurrency; assumption.
Qed.

(** Blocks 5 to 7 with a concurrency of zero, after a thousand rounds. *)
Lemma exploreBlockRange_without_concurrency_demo :
  exploreBlockRange 1000 demoApi demoHost stuckRange demoCallBack demoWorld = None.
Proof.
  apply (exploreBlockRange_without_concurrency_never_ends
           demoApi demoHost stuckRange demoCallBack demoWorld 0 1000).
  - cbn. lia.
  - reflexivity.
  - lia.
Defined.

Lemma deliverEach_prefix callBack (l : list BlockDetails) :
  forall calls w r w' calls',
    deliverEach callBack l calls w = (r, w', calls') ->
    exists delivered rest,
      l = (delivered ++ rest)%list /\ calls' = (calls ++ delivered)%list
      /\ (isOk r = true -> rest = []).
Proof.
  induction l as [|d l IH]; intros calls w r w' calls' H; cbn [deliverEach] in H.
  - inversion H; subst. exists [], [].
    split; [reflexivity |]. split; [symmetry; apply app_nil_r | reflexivity].
  - destruct (callBack d w) as [[u | e] w1].
    + destruct (IH _ _ _ _ _ H) as (delivered & rest & Hl & Hcalls & Hok).
      exists (d :: delivered), rest. rewrite Hl, Hcalls, <- app_assoc. auto.
    + inversion H; subst. exists [d], l. split; [reflexivity |].
      split; [reflexivity | discriminate].
Qed.

Lemma seqZ_prefix (xs : list Z) :
  forall ys a m, (xs ++ ys)%list = seqZ a m -> xs = seqZ a (Z.of_nat (length xs)).
Proof.
  induction xs as [|x xs IH]; intros ys a m H; [reflexivity |].
  destruct (Z.le_gt_cases m 0) as [Hm | Hm].
  - rewrite seqZ_nil in H by assumption. discriminate H.
  - rewrite seqZ_cons in H by lia. cbn [app] in H. inversion H as [[Hx Hrest]].
    rewrite (seqZ_cons a) by (cbn [length]; lia). f_equal.
    replace (Z.pred (Z.of_nat (length (a :: xs)))) with (Z.of_nat (length xs))
      by (cbn [length]; lia).
    eapply IH. exact Hrest.
Qed.

Section WalkCutShort.
Variables (api : Api) (host : Host) (callBack : BlockDetails -> M unit).
Variables (upto conc : Z).

Hypothesis numbers_match :
  forall n w d w', blockTask api host n w = (Ok d, w') -> blockNumberOf d = n.

Lemma exploreLoop_consecutive (fuel : nat) :
  forall current calls w r w' calls',
    exploreLoop fuel api host conc upto callBack current calls w = Some (r, w', calls') ->
    exists ds,
      calls' = (calls ++ ds)%list
      /\ map blockNumberOf ds = seqZ current (Z.of_nat (length ds))
      /\ Z.of_nat (length ds) <= Z.max 0 (upto - current + 1).
Proof.
  induction fuel as [|fuel IH]; intros current calls w r w' calls' H;
    [discriminate H |].
  cbn [exploreLoop] in H. destruct (current <=? upto) eqn:Hcur.
  - apply Z.leb_le in Hcur. rewrite startTasks_spec in H by lia.
    set (m := Z.max 0 (Z.min (conc - 0) (upto - current + 1))) in H.
    assert (Hm : 0 <= m <= upto - current + 1) by lia.
    destruct (parAll (map (blockTask api host) (seqZ current m)) w)
      as [[ds1 | e] w1] eqn:Hpar.
    + assert (Hnums : map blockNumberOf ds1 = seqZ current m).
      { apply parAll_ok_each in Hpar. clear -Hpar numbers_match.
        induction Hpar as [| n d ns ds (w0 & w1' & Hd) _ IHp]; [reflexivity |].
        cbn [map]. rewrite IHp, (numbers_match _ _ _ _ Hd). reflexivity. }
      destruct (deliverEach callBack ds1 calls w1) as [[r2 w2] calls2] eqn:Hdel.
      destruct (deliverEach_prefix _ _ _ _ _ _ _ Hdel)
        as (delivered & rest & Hsplit & Hcalls2 & Hall).
      assert (Hpre : map blockNumberOf delivered
                     = seqZ current (Z.of_nat (length delivered))).
      { rewrite <- (length_map blockNumberOf).
        apply (seqZ_prefix _ (map blockNumberOf rest) current m).
        rewrite <- map_app, <- Hsplit. exact Hnums. }
      assert (Hlen1 : Z.of_nat (length ds1) = m).
      { rewrite <- (length_map blockNumberOf), Hnums, length_seqZ. lia. }
      assert (Hlen : Z.of_nat (length delivered) <= m).
      { rewrite <- Hlen1, Hsplit, length_app. lia. }
      destruct r2 as [u | e].
      * assert (Hrest : rest = []) by (apply Hall; reflexivity).
        subst rest. rewrite app_nil_r in Hsplit. subst delivered.
        destruct (IH _ _ _ _ _ _ H) as (ds2 & Hcalls' & Hnums2 & Hlen2).
        exists (ds1 ++ ds2)%list. rewrite Hcalls', Hcalls2, <- app_assoc.
        split; [reflexivity |]. split.
        -- rewrite map_app, Hnums, Hnums2, length_app, Nat2Z.inj_add, Hlen1.
           rewrite (seqZ_app current m) by lia. reflexivity.
        -- rewrite length_app, Nat2Z.inj_add, Hlen1. lia.
      * inversion H; subst. exists delivered. split; [reflexivity |].
        split; [exact Hpre | lia].
    + inversion H; subst. exists []. rewrite app_nil_r.
      split; [reflexivity |]. split; [reflexivity | cbn; lia].
  - inversion H; subst. exists []. rewrite app_nil_r.
    split; [reflexivity |]. split; [reflexivity | cbn; lia].
Qed.
End WalkCutShort.

(** X13.  However a walk ends (normally, on a block that cannot be fetched,
    or on a callback that fails), the callback has been invoked on the
    blocks [from], [from + 1], ... consecutively, without gap or repeat and
    never past [to], provided the node hands out for each number the block
    of that number. *)
Theorem exploreBlockRange_calls_are_consecutive
    (api : Api) (host : Host) (range : BlockRangeOption)
    (callBack : BlockDetails -> M unit) (fuel : nat) (w : World)
    (r : Res unit) (w' : World) (calls : list BlockDetails) :
  (forall n w0 d w1, blockTask api host n w0 = (Ok d, w1) -> blockNumberOf d = n) ->
  exploreBlockRange fuel api host range callBack w = Some (r, w', calls) ->
  map blockNumberOf calls = seqZ (from range) (Z.of_nat (length calls))
  /\ Z.of_nat (length calls) <= Z.max 0 (to range - from range + 1).
Proof.
  intros Hmatch Hrun. unfold exploreBlockRange in Hrun.
  destruct (exploreLoop_consecutive api host callBack (to range)
              (default 1 (concurrency range)) Hmatch fuel _ _ _ _ _ _ Hrun)
    as (ds & Hcalls & Hnums & Hlen).
  cbn [app] in Hcalls. subst ds. auto.
Qed.

Lemma demo_numbers_match n w0 d w1 :
  blockTask demoApi demoHost n w0 = (Ok d, w1) -> blockNumberOf d = n.
Proof.
  unfold blockTask. intros H. bind_ok H. apply rpc_ok in E.
  apply getBlockDetails_fetched in H as (Hb & _).
  cbn in E. destruct ((5 <=? n) && (n <=? 11)) eqn:Hn; [| discriminate E].
  assert (Hcases : n = 5 \/ n = 6 \/ n = 7 \/ n = 8 \/ n = 9 \/ n = 10 \/ n = 11)
    by lia.
  inversion E; subst a. unfold blockNumberOf.
  remember (block d) as bd eqn:Hbd. clear Hbd.
  destruct Hcases as [-> | [-> | [-> | [-> | [-> | [-> | ->]]]]]];
    vm_compute in Hb; inversion Hb; reflexivity.
Defined.

(** Blocks 5 to 7 one by one, with a callback that fails on block 6. *)
Lemma exploreBlockRange_cut_short_demo :
  exists w' calls,
    exploreBlockRange 10 demoApi demoHost oneByOne stopAtSix demoWorld
    = Some (Err "stop", w', calls)
    /\ map blockNumberOf calls = [5; 6]
    /\ map blockNumberOf calls = seqZ (from oneByOne) (Z.of_nat (length calls))
    /\ Z.of_nat (length calls) <= Z.max 0 (to oneByOne - from oneByOne + 1).
Proof.
  eexists. eexists. split; [vm_compute; reflexivity |].
  split; [reflexivity |].
  eapply (exploreBlockRange_calls_are_consecutive demoApi demoHost oneByOne stopAtSix 10
            demoWorld (Err "stop")).
  - exact demo_numbers_match.
  - vm_compute. reflexivity.
Defined.

(** ** Live follower: what is delivered *)

Lemma deliveredFor_step api host s s' :
  listenStep api host s s' ->
  Forall (deliveredFor api) (history s) -> Forall (deliveredFor api) (history s').
Proof.
  intros Hstep Hinv. destruct Hstep as [h s Hsub | h s Hin | h s Hin].
  - cbn. apply Forall_app. split; [assumption | repeat constructor].
  - unfold resumeHead.
    destruct (headAnswers api host h (world s)) as [[[d txs] | e] w'] eqn:Hpar; cbn.
    + apply Forall_app. split; [assumption |]. constructor; [| constructor].
      apply headAnswers_ok in Hpar as (_ & (w1 & Hagg) & _).
      destruct (getBlockDetailsFrom_ok _ _ _ _ _ _ Hagg)
        as (t & _ & _ & Hb & Hrecs & Ht & Hnum & _).
      unfold toNumber in Hnum. destruct (t <? 2 ^ 53)%N eqn:Hlt; [| discriminate Hnum].
      inversion Hnum as [Hbt]. apply N.ltb_lt in Hlt.
      cbn. rewrite <- Hbt, N2Z.id.
      split; [assumption |]. split; [assumption |]. split; [assumption |].
      split; [lia | discriminate].
    + apply Forall_app. split; [assumption | repeat constructor].
  - cbn. apply Forall_app. split; [assumption | repeat constructor].
Qed.

(** X16.  Whatever the order in which heads arrive and aggregations end, a
    snapshot handed to the callback for a head is the aggregation of that
    very head: its block, its events and its timestamp are what the node
    answers for the hash of the head, and it carries the pending
    transactions. *)
Theorem listenBlocks_delivers_the_notified_head
    (api : Api) (host : Host) (finalized : bool)
    (callBack : BlockDetails -> M unit) (w : World) (s : Listener) :
  listenRun api host (listenBlocks api finalized callBack w) s ->
  Forall (deliveredFor api) (history s).
Proof.
  intros Hrun.
  remember (listenBlocks api finalized callBack w) as s0 eqn:Hs0.
  induction Hrun as [s0 | s0 s2 s3 _ IH Hstep].
  - subst s0. rewrite listenBlocks_history. constructor.
  - eapply deliveredFor_step; [exact Hstep | apply IH; assumption].
Qed.

(** The run in which the second head arrives before the first callback has
    returned. *)
Lemma listenBlocks_delivers_the_notified_head_demo :
  Forall (deliveredFor demoApi) (history demoOverlap).
Proof.
  apply (listenBlocks_delivers_the_notified_head demoApi demoHost false demoCallBack
           demoWorld).
  exact demoOverlap_run.
Defined.

(** X22.  When the node refuses the subscription, [listenBlocks] is over
    once the baseline has been read and the subscription asked: it rejects,
    no head is ever handled, the callback is never invoked and nothing is
    written to the console. *)
Theorem listenBlocks_refused_subscription (api : Api) (host : Host)
    (finalized : bool) (callBack : BlockDetails -> M unit) (w : World)
    (e : string) (s : Listener) :
  subscribeHeads api finalized = Err e ->
  listenRun api host (listenBlocks api finalized callBack w) s ->
  s = listenBlocks api finalized callBack w
  /\ subscription s = Err e
  /\ history s = []
  /\ deliveries s = []
  /\ console (world s) = console w
  /\ List.last (requests (world s)) ReqHeadBlock = ReqSubscribeHeads finalized.
Proof.
  intros Hrefused Hrun.
  assert (Hstart : subscription (listenBlocks api finalized callBack w) = Err e
                   /\ awaiting (listenBlocks api finalized callBack w) = []
                   /\ pending (listenBlocks api finalized callBack w) = []
                   /\ List.last (requests (world (listenBlocks api finalized callBack w)))
                                ReqHeadBlock
                      = ReqSubscribeHeads finalized).
  { unfold listenBlocks. destruct (baselineTime api w) as [t w1]. unfold rpc. cbn.
    rewrite Hrefused. repeat split. apply last_last. }
  destruct Hstart as (Hsub & Hawait & Hpending & Hlast).
  assert (Hsame : s = listenBlocks api finalized callBack w).
  { remember (listenBlocks api finalized callBack w) as s0 eqn:Hs0.
    induction Hrun as [s0 | s0 s2 s3 _ IH Hstep]; [reflexivity |].
    specialize (IH Hs0 Hsub Hawait Hpending Hlast). subst s2.
    destruct Hstep as [h s Hok | h s Hin | h s Hin].
    - rewrite Hsub in Hok. discriminate Hok.
    - rewrite Hawait in Hin. destruct Hin.
    - rewrite Hpending in Hin. destruct Hin. }
  subst s. split; [reflexivity |]. split; [exact Hsub |].
  unfold deliveries. rewrite listenBlocks_history, listenBlocks_console. auto.
Qed.

(** The follower started on a node that is down. *)
Lemma listenBlocks_refused_subscription_demo :
  subscription (listenBestBlocks downApi demoCallBack demoWorld) = Err "node down"
  /\ requests (world (listenBestBlocks downApi demoCallBack demoWorld))
     = [ReqHeadBlock; ReqSubscribeHeads false]
  /\ history (listenBestBlocks downApi demoCallBack demoWorld) = []
  /\ console (world (listenBestBlocks downApi demoCallBack demoWorld)) = [].
Proof.
  destruct (listenBlocks_refused_subscription downApi demoHost false demoCallBack
              demoWorld "node down" (listenBestBlocks downApi demoCallBack demoWorld)
              eq_refl (run_refl _ _ _)) as (_ & Hsub & Hhist & _ & Hcon & _).
  split; [exact Hsub |]. split; [vm_compute; reflexivity |].
  split; [exact Hhist | exact Hcon].
Defined.

(** ** Snapshot formatter: the parts of the line *)

Lemma length_string_app (a b : string) :
  String.length (a ++ b) = (String.length a + String.length b)%nat.
Proof.
  induction a as [|c a IH]; [reflexivity |].
  change (String c a ++ b)%string with (String c (a ++ b)).
  cbn [String.length]. rewrite IH. reflexivity.
Qed.

Lemma length_substring (s : string) :
  forall n m, String.length (String.substring n m s)
              = Nat.min m (String.length s - n).
Proof.
  induction s as [|c s IH]; intros n m.
  - destruct n, m; reflexivity.
  - destruct n as [|n]; destruct m as [|m]; cbn [String.substring String.length].
    + reflexivity.
    + rewrite IH. rewrite Nat.sub_0_r. reflexivity.
    + rewrite IH. cbn. reflexivity.
    + rewrite IH. reflexivity.
Qed.

Lemma shortened_long (s : string) :
  (11 <= String.length s)%nat ->
  shortened s = (String.substring 0 7 s ++ ".."
                 ++ String.substring (String.length s - 4) 4 s)%string
  /\ String.length (shortened s) = 13%nat.
Proof.
  intros Hlen.
  assert (Heq : shortened s = (String.substring 0 7 s ++ ".."
                               ++ String.substring (String.length s - 4) 4 s)%string).
  { unfold shortened, Js.substringFrom, Js.substring2, Js.clampIndex.
    replace (Z.to_nat (Z.min (Z.max 0 0) (Z.of_nat (String.length s)))) with 0%nat by lia.
    replace (Z.to_nat (Z.min (Z.max 7 0) (Z.of_nat (String.length s)))) with 7%nat by lia.
    replace (Z.to_nat (Z.min (Z.max (Z.of_nat (String.length s) - 4) 0)
                             (Z.of_nat (String.length s))))
      with (String.length s - 4)%nat by lia.
    replace (Z.to_nat (Z.min (Z.max (Z.of_nat (String.length s)) 0)
                             (Z.of_nat (String.length s))))
      with (String.length s) by lia.
    replace (Nat.min 0 7) with 0%nat by reflexivity.
    replace (Nat.max 0 7 - 0)%nat with 7%nat by reflexivity.
    replace (Nat.min (String.length s - 4) (String.length s))
      with (String.length s - 4)%nat by lia.
    replace (Nat.max (String.length s - 4) (String.length s) - (String.length s - 4))%nat
      with 4%nat by lia.
    reflexivity. }
  split; [exact Heq |].
  rewrite Heq, !length_string_app, !length_substring. cbn [String.length]. lia.
Qed.

(** X17.  The author shown at the end of the line is never longer than 20
    characters: a name of up to 20 characters is shown as it is, a longer
    one as its first 7 characters, two dots and its last 4 characters, 13
    characters in all.  The hash of a block, of at least 11 characters, is
    shown in the same way. *)
Theorem authorIdText_at_most_20 (d : BlockDetails) :
  (String.length (authorIdText d) <= 20)%nat
  /\ ((String.length (authorName d) <= 20)%nat -> authorIdText d = authorName d)
  /\ ((20 < String.length (authorName d))%nat ->
      authorIdText d
      = (String.substring 0 7 (authorName d) ++ ".."
         ++ String.substring (String.length (authorName d) - 4) 4 (authorName d))%string
      /\ String.length (authorIdText d) = 13%nat)
  /\ ((11 <= String.length (hash (header (block d))))%nat ->
      String.length (shortened (hash (header (block d)))) = 13%nat).
Proof.
  unfold authorIdText.
  destruct (20 <? String.length (authorName d))%nat eqn:Hlong.
  - apply Nat.ltb_lt in Hlong.
    destruct (shortened_long (authorName d)) as [Heq Hlen]; [lia |].
    repeat split; try lia; try assumption.
    intros Hh. apply shortened_long. exact Hh.
  - apply Nat.ltb_ge in Hlong.
    repeat split; try lia.
    intros Hh. apply shortened_long. exact Hh.
Qed.




(** X19.  Extrinsics that pay no fee or are mandatory count for nothing in
    the fees of the line: when every extrinsic of a snapshot has its
    dispatch outcome and none both pays and is not mandatory, the total is
    0, whatever the fee quotes and the payloads. *)
Theorem feesOf_without_paying_extrinsic (d : BlockDetails) :
  (forall tx, In tx (txWithEvents d) ->
     exists di, dispatchInfo tx = Some di
                /\ (paysFee_isYes di = false \/ class_isMandatory di = true)) ->
  feesOf d = Ok 0%N.
Proof.
  intros Hall. unfold feesOf.
  assert (Hpay : payingTxs (txWithEvents d) = Ok []).
  { induction (txWithEvents d) as [|tx txs IH]; [reflexivity |].
    cbn [payingTxs].
    destruct (Hall tx (or_introl eq_refl)) as (di & Hdi & Hno).
    rewrite Hdi, IH by (intros t Ht; apply Hall; right; exact Ht).
    cbn [res_bind].
    replace (paysFee_isYes di && negb (class_isMandatory di)) with false;
      [reflexivity |].
    destruct Hno as [-> | ->]; [reflexivity | rewrite andb_false_r; reflexivity]. }
  rewrite Hpay. reflexivity.
Qed.

(** The snapshot of a block that holds the timestamp inherent alone, for
    which no fee quote is at hand. *)
Lemma feesOf_without_paying_extrinsic_demo : feesOf inherentOnly = Ok 0%N.
Proof.
  apply (feesOf_without_paying_extrinsic inherentOnly).
  intros tx Hin. vm_compute in Hin. destruct Hin as [<- | []].
  eexists. split; [reflexivity |]. right. reflexivity.
Defined.

(** ** Range walker: a batch is delivered whole or not at all *)

Lemma parAll_some_failure {A B} (task : A -> M B) (l : list A) (a : A) :
  In a l ->
  (forall w, isOk (fst (task a w)) = false) ->
  forall w, isOk (fst (parAll (map task l) w)) = false.
Proof.
  intros Hin Hfail. induction l as [|x l IH]; intros w; [destruct Hin |].
  cbn [map parAll].
  destruct (task x w) as [rx w1] eqn:Hx.
  destruct (parAll (map task l) w1) as [rl w2] eqn:Hl. cbn [fst].
  destruct Hin as [-> | Hin].
  - specialize (Hfail w). rewrite Hx in Hfail. cbn in Hfail.
    destruct rx; [discriminate Hfail | reflexivity].
  - specialize (IH Hin w1). rewrite Hl in IH. cbn in IH.
    destruct rl; [discriminate IH |]. destruct rx; reflexivity.
Qed.

(** X21.  The callback is not invoked before every block of the batch is in:
    when the whole range fits the first batch and one of its blocks cannot
    be fetched, the walk fails without a single call of the callback, not
    even for the blocks that come before the failing one. *)
Theorem exploreBlockRange_failed_batch_delivers_nothing
    (api : Api) (host : Host) (range : BlockRangeOption)
    (callBack : BlockDetails -> M unit) (w : World) (n : Z) (fuel : nat) :
  from range <= n <= to range ->
  to range - from range + 1 <= default 1 (concurrency range) ->
  (forall w0, isOk (fst (blockTask api host n w0)) = false) ->
  exists e w',
    exploreBlockRange (S fuel) api host range callBack w = Some (Err e, w', []).
Proof.
  intros Hn Hconc Hfail. unfold exploreBlockRange. cbn [exploreLoop].
  replace (from range <=? to range) with true by lia.
  rewrite startTasks_spec by lia.
  replace (Z.max 0 (Z.min (default 1 (concurrency range) - 0)
                          (to range - from range + 1)))
    with (to range - from range + 1) by lia.
  pose proof (parAll_some_failure (blockTask api host)
                (seqZ (from range) (to range - from range + 1)) n) as Hpar.
  specialize (Hpar ltac:(rewrite <- list_elem_of_In, elem_of_seqZ; lia) Hfail w).
  destruct (parAll _ w) as [[ds | e] w1]; [discriminate Hpar |].
  exists e, w1. reflexivity.
Qed.

Lemma parAll_rpc_refused {A X} api (req : X -> Request) (ans : X -> Res A)
    (xs : list X) (x : X) (e : string) :
  In x xs -> ans x = Err e ->
  forall w, isOk (fst (parAll (map (fun x => rpc api (req x) (ans x)) xs) w)) = false.
Proof.
  intros Hin Hx.
  apply (parAll_some_failure (fun x => rpc api (req x) (ans x)) xs x Hin).
  intros w. cbn. rewrite Hx. reflexivity.
Qed.

Lemma getBlockDetails_fee_refused api host blockHash b recs t ext e :
  api_at api blockHash = Ok tt ->
  getBlock api blockHash = Ok b ->
  systemEvents api blockHash = Ok recs ->
  timestampNow api blockHash = Ok t ->
  In ext (extrinsics b) ->
  queryInfo api (ext_hex ext) (parentHash (header b)) = Err e ->
  forall w, isOk (fst (getBlockDetails api host blockHash w)) = false.
Proof.
  intros Hat Hb Hrecs Ht Hin Hfee w.
  unfold getBlockDetails, bind. unfold rpc at 1. rewrite Hat.
  unfold getBlockDetailsFrom, bind.
  unfold par at 1. unfold rpc at 1. rewrite Hb.
  unfold par at 1. unfold rpc at 1 2. rewrite Hrecs, Ht. cbn [both fst snd].
  set (w2 := elapse _ (logRequest (ReqTimestamp blockHash) _)).
  unfold par.
  pose proof (parAll_rpc_refused api
                (fun ext => ReqQueryInfo (ext_hex ext) (parentHash (header b)))
                (fun ext => queryInfo api (ext_hex ext) (parentHash (header b)))
                (extrinsics b) ext e Hin Hfee w2) as Hfees.
  destruct (parAll _ w2) as [[fees | e'] w3]; [discriminate Hfees |].
  match goal with
  | |- context [match ?author w3 with _ => _ end] => destruct (author w3) as [rb w4]
  end.
  reflexivity.
Qed.

(** Blocks 7 to 9 in one batch: block 8 cannot be aggregated. *)
Lemma exploreBlockRange_failed_batch_demo :
  exists e w',
    exploreBlockRange 1 demoApi demoHost oneBatch demoCallBack demoWorld
    = Some (Err e, w', []).
Proof.
  apply (exploreBlockRange_failed_batch_delivers_nothing
           demoApi demoHost oneBatch demoCallBack demoWorld 8 0).
  - cbn. lia.
  - cbn. lia.
  - intros w0. unfold blockTask, bind. unfold rpc at 1. cbn [fst snd].
    change (getBlockHash demoApi 8) with (Ok "0xb8" : Res Hash). cbn iota beta.
    apply (getBlockDetails_fee_refused demoApi demoHost "0xb8"
             {| header := {| number := 8; hash := "0xb8"; parentHash := "0xb7";
                             digestLogs := [] |};
                extrinsics := [setAuthor "0xauthor1"; unquotable] |}
             (demoEvents "0xb8") 12000%N unquotable "fee quote refused");
      try reflexivity.
    right. left. reflexivity.
Defined.
